(** * stt_whisper_cli: the recording / transcription session core

    A shallow embedding of [stt_whisper_cli.py]: the [Recorder] class, the
    functions [transcribe], [copy_to_clipboard], [save_transcription] and
    [display_timer], and the loop of [main].

    Python statements mutate objects, print, touch the disk and may raise.
    They are embedded in a state-and-exception monad: a computation takes the
    state, and gives back either an exception or a value, together with the
    state it left behind (what was changed before a [raise] stays changed).

    What lies outside the program is data of the model:
    - the recognizer process ([whisper]) and the WAV encoder of [soundfile]
      are parameters of the development;
    - what the operator and the machine do during one turn of the loop
      (keys, clock readings, delivered audio chunks, the temporary file name)
      is a record [CycleEnv]; a session is a list of them;
    - the disk holds regular files and directories; creating directories and
      writing files always succeed, removing a file that is absent raises.

    Threads are not modelled: the chunks of a recording are delivered by
    calls of [_callback] between [start] and [stop], and the timer's renders
    are done while [main] waits for the second key.

    The other tool of the repository, [gen_json_schema.py], is embedded in
    the module [GenJsonSchema], after the definitions of this one. *)

From Stdlib Require Import ZArith QArith String Ascii List Lia.
From stdpp Require Import base gmap strings list pretty.

(** ** Strings *)

Module Str.

(** ["\n"] *)
Definition nl : string := String "010"%char EmptyString.

(** ["\r"] *)
Definition cr : string := String "013"%char EmptyString.

(** [sep.join(parts)] *)
Definition join (sep : string) (parts : list string) : string :=
  String.concat sep parts.

Definition of_codes (l : list nat) : string :=
  string_of_list_ascii (map ascii_of_nat l).

(** The code points [str.isspace] accepts, each as its UTF-8 bytes: text is
    held as UTF-8 throughout. *)
Definition whitespace : list string :=
  map of_codes
    ([[9]; [10]; [11]; [12]; [13]; [28]; [29]; [30]; [31]; [32];
      [194; 133]; [194; 160]; [225; 154; 128]]
     ++ map (fun b => [226; 128; b]) (seq 128 11)
     ++ [[226; 128; 168]; [226; 128; 169]; [226; 128; 175];
         [226; 129; 159]; [227; 128; 128]]).

Fixpoint drop_leading (fuel : nat) (pats : list string) (s : string) : string :=
  match fuel with
  | O => s
  | S fuel' =>
      match find (fun w => String.prefix w s) pats with
      | Some w =>
          drop_leading fuel' pats
            (String.substring (String.length w)
               (String.length s - String.length w) s)
      | None => s
      end
  end.

Definition lstrip (s : string) : string :=
  drop_leading (String.length s) whitespace s.

Definition rstrip (s : string) : string :=
  String.rev
    (drop_leading (String.length s) (map String.rev whitespace) (String.rev s)).

(** [s.strip()] *)
Definition strip (s : string) : string := rstrip (lstrip s).

(** [s.rfind(".")] *)
Fixpoint rfind_dot (s : string) : option nat :=
  match s with
  | EmptyString => None
  | String c s' =>
      match rfind_dot s' with
      | Some i => Some (S i)
      | None => if Ascii.eqb c "."%char then Some O else None
      end
  end.

(** [bool(s)] *)
Definition nonempty (s : string) : bool :=
  match s with EmptyString => false | String _ _ => true end.

(** [format(n, "02d")] *)
Definition fmt_02d (n : Z) : string :=
  if (0 <=? n)%Z && (n <? 10)%Z then "0" +:+ pretty n else pretty n.

End Str.

(** ** Paths ([pathlib.Path]) *)

(** A path is the list of its components, outermost first; the empty list is
    the directory paths are resolved against. *)
Abbreviation Path := (list string).

Inductive exn : Type :=
| KeyboardInterrupt
| EOFError
| FileNotFoundError
| ValueError
| AttributeError
| ZeroDivisionError
| PortAudioError
| CalledProcessError.

#[global] Instance exn_eq_dec : EqDecision exn.
Proof. solve_decision. Defined.

Module PathLib.

(** [p.parent] *)
Definition parent (p : Path) : Path := removelast p.

(** [p.name] *)
Definition name (p : Path) : string := List.last p EmptyString.

(** [p.suffix] *)
Definition suffix (p : Path) : string :=
  let n := name p in
  match Str.rfind_dot n with
  | Some i =>
      if (0 <? i) && (i <? String.length n - 1)
      then String.substring i (String.length n - i) n
      else EmptyString
  | None => EmptyString
  end.

(** [p.with_suffix(sfx)], for a well-formed [sfx] such as [".txt"]. *)
Definition with_suffix (p : Path) (sfx : string) : exn + Path :=
  let n := name p in
  if Str.nonempty n then
    let old := suffix p in
    let stem := String.substring 0 (String.length n - String.length old) n in
    inr (parent p ++ [stem +:+ sfx])
  else inl ValueError.

(** [str(p)] *)
Definition str (p : Path) : string := "/" +:+ Str.join "/" p.

(** The directories [p.mkdir(parents=True)] may have to create: [p] and its
    ancestors, outermost first. *)
Definition lineage (p : Path) : list Path :=
  map (fun n => take n p) (seq 1 (length p)).

End PathLib.

(** ** The state-and-exception monad *)

Definition M (S A : Type) : Type := S -> (exn + A) * S.

Definition ret {S A} (a : A) : M S A := fun s => (inr a, s).

Definition bind {S A B} (m : M S A) (k : A -> M S B) : M S B :=
  fun s =>
    match m s with
    | (inr a, s') => k a s'
    | (inl e, s') => (inl e, s')
    end.

Definition raise {S A} (e : exn) : M S A := fun s => (inl e, s).

Definition gets {S A} (f : S -> A) : M S A := fun s => (inr (f s), s).

Definition modify {S} (f : S -> S) : M S unit := fun s => (inr tt, f s).

(** [try: m  except e: handler] *)
Definition try_except {S A} (m : M S A) (e : exn) (handler : M S A) : M S A :=
  fun s =>
    match m s with
    | (inl e', s') => if decide (e' = e) then handler s' else (inl e', s')
    | r => r
    end.

(** Running a computation inside a larger state. *)
Definition zoom {S T A} (get : S -> T) (set : T -> S -> S) (m : M T A) : M S A :=
  fun s => let '(r, t) := m (get s) in (r, set t s).

Declare Scope py_scope.
Delimit Scope py_scope with py.
Notation "x <- c1 ;; c2" := (bind c1 (fun x => c2))
  (at level 100, c1 at next level, right associativity) : py_scope.
Notation "c1 ;; c2" := (bind c1 (fun _ => c2))
  (at level 100, right associativity) : py_scope.
Open Scope py_scope.

(** [for x in xs: body x] *)
Fixpoint for_each {S A} (xs : list A) (body : A -> M S unit) : M S unit :=
  match xs with
  | [] => ret tt
  | x :: xs' => body x ;; for_each xs' body
  end.

(** The state a computation leaves, and what it returns or raises. *)
Definition result_of {S A} (m : M S A) (s : S) : exn + A := fst (m s).
Definition state_after {S A} (m : M S A) (s : S) : S := snd (m s).

(** ** The world outside the process *)

(** [subprocess.CompletedProcess] *)
Record CompletedProcess : Type := {
  returncode : Z;
  cp_stdout : string;
  cp_stderr : string;
}.

(** What is written to the terminal.  The two lines that format a float
    with [:.1f] carry the number itself. *)
Inductive Output : Type :=
| Text (s : string)
| Duration (seconds : Q)
| Completed (seconds : Q) (mode_info : string).

Record World : Type := {
  files : gmap Path string;          (* regular files and their content *)
  dirs : gset Path;                  (* directories *)
  clipboard : string;
  stdout : list Output;              (* oldest first *)
  stderr : list string;
  whisper_runs : list (list string); (* argv of each recognizer run *)
  input_device : option Q;           (* default input device: its sample rate *)
}.

Definition with_files (f : gmap Path string) (w : World) : World :=
  {| files := f; dirs := dirs w; clipboard := clipboard w; stdout := stdout w;
     stderr := stderr w; whisper_runs := whisper_runs w;
     input_device := input_device w |}.

Definition with_dirs (d : gset Path) (w : World) : World :=
  {| files := files w; dirs := d; clipboard := clipboard w; stdout := stdout w;
     stderr := stderr w; whisper_runs := whisper_runs w;
     input_device := input_device w |}.

Definition with_clipboard (c : string) (w : World) : World :=
  {| files := files w; dirs := dirs w; clipboard := c; stdout := stdout w;
     stderr := stderr w; whisper_runs := whisper_runs w;
     input_device := input_device w |}.

Definition with_stdout (o : list Output) (w : World) : World :=
  {| files := files w; dirs := dirs w; clipboard := clipboard w; stdout := o;
     stderr := stderr w; whisper_runs := whisper_runs w;
     input_device := input_device w |}.

Definition with_stderr (e : list string) (w : World) : World :=
  {| files := files w; dirs := dirs w; clipboard := clipboard w;
     stdout := stdout w; stderr := e; whisper_runs := whisper_runs w;
     input_device := input_device w |}.

Definition with_whisper_runs (r : list (list string)) (w : World) : World :=
  {| files := files w; dirs := dirs w; clipboard := clipboard w;
     stdout := stdout w; stderr := stderr w; whisper_runs := r;
     input_device := input_device w |}.

(** *** Terminal *)

Definition write (o : Output) : M World unit :=
  modify (fun w => with_stdout (stdout w ++ [o]) w).

(** [print(s)] *)
Definition print (s : string) : M World unit := write (Text (s +:+ Str.nl)).

(** [print(s, end="", flush=True)] *)
Definition print_end (s : string) : M World unit := write (Text s).

(** [print(s, file=sys.stderr)] *)
Definition print_stderr (s : string) : M World unit :=
  modify (fun w => with_stderr (stderr w ++ [s +:+ Str.nl]) w).

(** What [input] meets on standard input. *)
Inductive Key : Type := Enter | CtrlC | EndOfInput.

(** [input(prompt)] *)
Definition input (prompt : string) (k : Key) : M World string :=
  (if Str.nonempty prompt then write (Text prompt) else ret tt) ;;
  match k with
  | Enter => ret EmptyString
  | CtrlC => raise KeyboardInterrupt
  | EndOfInput => raise EOFError
  end.

(** *** Disk *)

(** Whether something is at [p]: a regular file or a directory. *)
Definition present (p : Path) (w : World) : bool :=
  bool_decide (p = []) || bool_decide (is_Some (files w !! p))
  || bool_decide (p ∈ dirs w).

(** [p.exists()] *)
Definition path_exists (p : Path) : M World bool := gets (present p).

(** [p.unlink()] *)
Definition unlink (p : Path) : M World unit :=
  fun w =>
    match files w !! p with
    | Some _ => (inr tt, with_files (delete p (files w)) w)
    | None => (inl FileNotFoundError, w)
    end.

(** [p.read_text()] *)
Definition read_text (p : Path) : M World string :=
  fun w =>
    match files w !! p with
    | Some content => (inr content, w)
    | None => (inl FileNotFoundError, w)
    end.

(** Creating or overwriting the file [p]. *)
Definition write_file (p : Path) (content : string) : M World unit :=
  modify (fun w => with_files (<[p := content]> (files w)) w).

(** [with open(p, "a", encoding="utf-8") as f: f.write(s)]: the file is
    created if absent, and the bytes of [s], which is UTF-8, go at its
    end. *)
Definition append_text (p : Path) (s : string) : M World unit :=
  modify (fun w =>
            with_files (<[p := default EmptyString (files w !! p) +:+ s]> (files w)) w).

(** [p.mkdir(parents=True, exist_ok=True)] *)
Definition mkdir_parents (p : Path) : M World unit :=
  modify (fun w => with_dirs (dirs w ∪ list_to_set (PathLib.lineage p)) w).

(** *** Clock *)

(** [datetime.now()] *)
Record datetime : Type := {
  year : Z; month : Z; day : Z; hour : Z; minute : Z; second : Z;
}.

(** [t.strftime("%Y-%m-%d %H:%M:%S")] *)
Definition strftime (t : datetime) : string :=
  pretty (year t) +:+ "-" +:+ Str.fmt_02d (month t) +:+ "-"
  +:+ Str.fmt_02d (day t) +:+ " " +:+ Str.fmt_02d (hour t) +:+ ":"
  +:+ Str.fmt_02d (minute t) +:+ ":" +:+ Str.fmt_02d (second t).

(** [bool(x)] of a float *)
Definition nonzero (x : Q) : bool := negb (Qeq_bool x 0).

(** [int(x)] of a float: truncation toward zero *)
Definition int_of (x : Q) : Z := Z.quot (Qnum x) (Zpos (Qden x)).

(** ** Recorder *)

(** One audio sample ([float32]), as its bit pattern; the program moves
    samples around and never computes on them. *)
Definition float32 : Type := N.

(** A chunk ([indata]) has shape [(frames, 1)]: one sample per frame. *)
Abbreviation chunk := (list float32).

(** [sd.InputStream] *)
Inductive Stream : Type := Opened | Running | Halted | Closed.

Record Recorder : Type := {
  samplerate : Z;
  recording : bool;
  audio_data : list chunk;
  _start_time : Q;
  stream : option Stream;       (* [None]: the attribute is not set yet *)
}.

Definition set_recording (b : bool) (r : Recorder) : Recorder :=
  {| samplerate := samplerate r; recording := b; audio_data := audio_data r;
     _start_time := _start_time r; stream := stream r |}.

Definition set_audio_data (a : list chunk) (r : Recorder) : Recorder :=
  {| samplerate := samplerate r; recording := recording r; audio_data := a;
     _start_time := _start_time r; stream := stream r |}.

Definition set_start_time (t : Q) (r : Recorder) : Recorder :=
  {| samplerate := samplerate r; recording := recording r;
     audio_data := audio_data r; _start_time := t; stream := stream r |}.

Definition set_stream (s : option Stream) (r : Recorder) : Recorder :=
  {| samplerate := samplerate r; recording := recording r;
     audio_data := audio_data r; _start_time := _start_time r; stream := s |}.

(** The objects [main] holds, and the world. *)
Record State : Type := {
  recorder : Recorder;
  session_transcripts : list string;
  world : World;
}.

Definition with_recorder (r : Recorder) (st : State) : State :=
  {| recorder := r; session_transcripts := session_transcripts st;
     world := world st |}.

Definition with_session_transcripts (l : list string) (st : State) : State :=
  {| recorder := recorder st; session_transcripts := l; world := world st |}.

Definition with_world (w : World) (st : State) : State :=
  {| recorder := recorder st; session_transcripts := session_transcripts st;
     world := w |}.

(** A computation on the world, run by [main]. *)
Definition io {A} (m : M World A) : M State A := zoom world with_world m.

(** A mutation of [self]. *)
Definition self_set (f : Recorder -> Recorder) : M State unit :=
  modify (fun st => with_recorder (f (recorder st)) st).

Module RecorderMethods.

(** [Recorder.__init__] *)
Definition __init__ : M World Recorder :=
  dev <- gets input_device ;;
  match dev with
  | Some rate =>
      ret {| samplerate := int_of rate; recording := false; audio_data := [];
             _start_time := 0; stream := None |}
  | None => raise PortAudioError
  end.

(** [sd.InputStream(samplerate=..., channels=1, dtype="float32", callback=...)] *)
Definition InputStream : M State Stream :=
  dev <- gets (fun st => input_device (world st)) ;;
  match dev with
  | Some _ => ret Opened
  | None => raise PortAudioError
  end.

(** [stream.start()], [stream.stop()], [stream.close()] *)
Definition stream_start (s : Stream) : Stream :=
  match s with Closed => Closed | _ => Running end.
Definition stream_stop (s : Stream) : Stream :=
  match s with Running => Halted | _ => s end.
Definition stream_close (s : Stream) : Stream := Closed.

(** [self.stream] *)
Definition the_stream : M State Stream :=
  s <- gets (fun st => stream (recorder st)) ;;
  match s with
  | Some s => ret s
  | None => raise AttributeError
  end.

(** [Recorder.start]; [now] is what [time()] reads. *)
Definition start (now : Q) : M State unit :=
  self_set (set_audio_data []) ;;
  self_set (set_recording true) ;;
  self_set (set_start_time now) ;;
  s <- InputStream ;;
  self_set (set_stream (Some s)) ;;
  s <- the_stream ;;
  self_set (set_stream (Some (stream_start s))).

(** [Recorder._callback], called by the audio backend with one chunk. *)
Definition _callback (indata : chunk) : M State unit :=
  r <- gets recorder ;;
  if recording r
  then self_set (set_audio_data (audio_data r ++ [indata]))
  else ret tt.

(** [Recorder.elapsed]; [now] is what [time()] reads. *)
Definition elapsed (now : Q) : M State Q :=
  r <- gets recorder ;;
  if nonzero (_start_time r)
  then ret (now - _start_time r)%Q
  else ret 0%Q.

(** [Recorder.stop] *)
Definition stop : M State (list float32) :=
  self_set (set_recording false) ;;
  s <- the_stream ;;
  self_set (set_stream (Some (stream_stop s))) ;;
  s <- the_stream ;;
  self_set (set_stream (Some (stream_close s))) ;;
  r <- gets recorder ;;
  match audio_data r with
  | [] => ret []
  | _ :: _ => ret (concat (audio_data r))
  end.

End RecorderMethods.

(** ** The functions of the module *)

Section Program.

(** The recognizer: what one run of the [whisper] executable with the given
    arguments returns, and what it leaves of the files. *)
Variable whisper :
  list string -> gmap Path string -> CompletedProcess * gmap Path string.

(** [soundfile]: the bytes of a WAV file holding these samples at this rate. *)
Variable wav_bytes : Z -> list float32 -> string.

(** [subprocess.run(argv, capture_output=True, text=True)] on the recognizer *)
Definition run_whisper (argv : list string) : M World CompletedProcess :=
  fun w =>
    let '(result, fs) := whisper argv (files w) in
    (inr result, with_whisper_runs (whisper_runs w ++ [argv]) (with_files fs w)).

(** What the recognizer answers when run from the world [w], and the world
    it leaves. *)
Definition whisper_result (argv : list string) (w : World) : CompletedProcess :=
  fst (whisper argv (files w)).

Definition after_whisper (argv : list string) (w : World) : World :=
  with_whisper_runs (whisper_runs w ++ [argv])
    (with_files (snd (whisper argv (files w))) w).

(** A value or an exception computed without the state. *)
Definition lift_result {S A} (r : exn + A) : M S A :=
  match r with inr a => ret a | inl e => raise e end.

(** The command line [transcribe] runs. *)
Definition whisper_argv (audio_path : Path) (model lang : string) : list string :=
  ["whisper"; PathLib.str audio_path; "--model"; model; "--language"; lang;
   "--output_format"; "txt"; "--output_dir"; PathLib.str (PathLib.parent audio_path)].

Definition transcribe (audio_path : Path) (model lang : string) : M World string :=
  result <- run_whisper (whisper_argv audio_path model lang) ;;
  if negb (returncode result =? 0)%Z then
    print_stderr ("Whisper error: " +:+ cp_stderr result) ;;
    ret EmptyString
  else
    txt_path <- lift_result (PathLib.with_suffix audio_path ".txt") ;;
    found <- path_exists txt_path ;;
    if found then
      content <- read_text txt_path ;;
      let text := Str.strip content in
      unlink txt_path ;;
      ret text
    else ret EmptyString.

(** The [pbcopy] process: it puts its input on the clipboard and exits
    with status 0. *)
Definition pbcopy (stdin : string) : M World CompletedProcess :=
  modify (with_clipboard stdin) ;;
  ret {| returncode := 0; cp_stdout := EmptyString; cp_stderr := EmptyString |}.

Definition copy_to_clipboard (text : string) : M World unit :=
  result <- pbcopy text ;;
  if negb (returncode result =? 0)%Z then raise CalledProcessError else ret tt.

(** [now] is what [datetime.now()] reads. *)
Definition save_transcription (now : datetime) (text : string) (output_fp : Path)
  : M World unit :=
  let timestamp := strftime now in
  let parent_dir := PathLib.parent output_fp in
  found <- path_exists parent_dir ;;
  (if negb found then mkdir_parents parent_dir else ret tt) ;;
  append_text output_fp
    ("[" +:+ timestamp +:+ "]" +:+ Str.nl +:+ text +:+ Str.nl +:+ Str.nl).

(** The line [display_timer] shows for an elapsed time. *)
Definition timer_line (elapsed : Q) : string :=
  let mins := (int_of elapsed / 60)%Z in
  let secs := (int_of elapsed mod 60)%Z in
  Str.cr +:+ "[REC] " +:+ Str.fmt_02d mins +:+ ":" +:+ Str.fmt_02d secs
  +:+ " (Press Enter to stop)".

(** One turn of the loop of [display_timer]; [now] is what [time()] reads. *)
Definition timer_tick (now : Q) : M State unit :=
  elapsed <- RecorderMethods.elapsed now ;;
  io (print_end (timer_line elapsed)).

(** [display_timer]: one turn per clock reading in [polls] while the stop
    event is unset, then the closing newline. *)
Definition display_timer (polls : list Q) : M State unit :=
  for_each polls timer_tick ;;
  io (print EmptyString).

(** The parsed command line. *)
Record Args : Type := {
  model : string;
  lang : string;
  append : bool;
  output : option Path;
}.

(** What happens around the program during one turn of the loop of [main]. *)
Record CycleEnv : Type := {
  key_start : Key;          (* [input] at the top of the loop *)
  arm_time : Q;             (* [time()] in [Recorder.start] *)
  polls : list Q;           (* [time()] at each turn of the timer *)
  chunks : list chunk;      (* what the backend delivers before the key *)
  key_stop : Key;           (* the second [input] *)
  temp_path : Path;         (* the name [NamedTemporaryFile] picks *)
  transcribe_start : Q;     (* [time()] before [transcribe] *)
  transcribe_end : Q;       (* [time()] after it *)
  log_time : datetime;      (* [datetime.now()] in [save_transcription] *)
}.

(** The end of the loop body, lines 209-230: what [main] does with the
    [text] that [transcribe] returned. *)
Definition publish (args : Args) (e : CycleEnv) (text : string) : M State unit :=
  (if Str.nonempty text then
     let elapsed := (transcribe_end e - transcribe_start e)%Q in
     clipboard_text <-
       (if append args then
          modify (fun st =>
                    with_session_transcripts (session_transcripts st ++ [text]) st) ;;
          l <- gets session_transcripts ;;
          ret (Str.join Str.nl l)
        else ret text) ;;
     io (copy_to_clipboard clipboard_text) ;;
     match output args with
     | Some fp => io (save_transcription (log_time e) text fp)
     | None => ret tt
     end ;;
     let mode_info := if append args then " (appended)" else EmptyString in
     io (write (Completed elapsed mode_info)) ;;
     io (print ("  > " +:+ text))
   else io (print "Transcription failed or no content!")) ;;
  io (print EmptyString).

(** The beginning of the loop body, lines 177-190: from the start key to
    [audio = recorder.stop()].  The timer thread is [display_timer]: its
    turns run while [main] waits for the second key, its closing newline
    once [main] has set the stop event and joins it. *)
Definition record (e : CycleEnv) : M State (list float32) :=
  io (input "Press Enter to start recording..." (key_start e)) ;;
  RecorderMethods.start (arm_time e) ;;
  (* the timer thread and the audio backend run while [input] waits *)
  for_each (polls e) timer_tick ;;
  for_each (chunks e) RecorderMethods._callback ;;
  io (input EmptyString (key_stop e)) ;;
  (* stop_event.set(); timer_thread.join() *)
  io (print EmptyString) ;;
  RecorderMethods.stop.

(** Lines 196-205, from [duration = ...] to [print("Transcribing...")]:
    the temporary WAV file is created and written. *)
Definition write_temp (e : CycleEnv) (audio : list float32) : M State unit :=
  rate <- gets (fun st => samplerate (recorder st)) ;;
  (if (rate =? 0)%Z then raise ZeroDivisionError
   else io (write (Duration (inject_Z (Z.of_nat (length audio)) / inject_Z rate)%Q))) ;;
  io (write_file (temp_path e) EmptyString) ;;
  io (write_file (temp_path e) (wav_bytes rate audio)) ;;
  io (print "Transcribing...").

(** Lines 206-207: [text = transcribe(temp_path, ...)] and
    [temp_path.unlink()]. *)
Definition recognize (args : Args) (e : CycleEnv) : M State string :=
  text <- io (transcribe (temp_path e) (model args) (lang args)) ;;
  io (unlink (temp_path e)) ;;
  ret text.

(** One turn of [while True] in [main], lines 177-230.  The branch for an
    empty recording ends the turn ([continue]). *)
Definition cycle (args : Args) (e : CycleEnv) : M State unit :=
  audio <- record e ;;
  if (length audio =? 0)%nat then
    io (print "No audio detected!")       (* continue *)
  else
    write_temp e audio ;;
    text <- recognize args e ;;
    publish args e text.

(** The loop of [main] over a session; when the session has no more to
    give, standard input is at its end. *)
Fixpoint main_loop (args : Args) (session : list CycleEnv) : M State unit :=
  match session with
  | [] => io (input "Press Enter to start recording..." EndOfInput) ;; ret tt
  | e :: rest => cycle args e ;; main_loop args rest
  end.

Definition banner (args : Args) (r : Recorder) : M World unit :=
  print "Real-time Speech Transcription" ;;
  print ("  Model: " +:+ model args) ;;
  print ("  Language: " +:+ lang args) ;;
  print ("  Sample rate: " +:+ pretty (samplerate r) +:+ " Hz") ;;
  print ("  Append mode: " +:+ (if append args then "on" else "off")) ;;
  match output args with
  | Some fp => print ("  Output file: " +:+ PathLib.str fp)
  | None => ret tt
  end ;;
  print "----------------------------------------" ;;
  print "Press Enter to start recording, Enter again to stop and transcribe" ;;
  print "Press Ctrl+C to exit" ;;
  print EmptyString.

Definition main (args : Args) (session : list CycleEnv) : M World unit :=
  r <- RecorderMethods.__init__ ;;
  banner args r ;;
  fun w =>
    let '(res, st) :=
      try_except (main_loop args session) KeyboardInterrupt
        (io (print (Str.nl +:+ "Goodbye!")))
        {| recorder := r; session_transcripts := []; world := w |} in
    (res, world st).

End Program.

(** * Definitions used by the statements *)

(** The recorder [start] leaves: armed, empty, with a fresh running stream. *)
Definition armed (now : Q) (r : Recorder) : Recorder :=
  {| samplerate := samplerate r; recording := true; audio_data := [];
     _start_time := now; stream := Some Running |}.

(** The recorder [stop] leaves. *)
Definition disarmed (r : Recorder) : Recorder :=
  {| samplerate := samplerate r; recording := false;
     audio_data := audio_data r; _start_time := _start_time r;
     stream := Some Closed |}.

(** What the terminal shows during the recording phase of a turn that
    starts at [arm_time e]: the prompt, one timer line per poll, and the
    newline that ends the timer. *)
Definition shown_while_recording (e : CycleEnv) : list Output :=
  [Text "Press Enter to start recording..."]
  ++ map (fun now =>
            Text (timer_line (if nonzero (arm_time e)
                              then (now - arm_time e)%Q else 0%Q)))
       (polls e)
  ++ [Text (EmptyString +:+ Str.nl)].

(** The state the recording phase leaves when both keys are Enter. *)
Definition recorded (e : CycleEnv) (st : State) : State :=
  {| recorder :=
       disarmed (set_audio_data (chunks e) (armed (arm_time e) (recorder st)));
     session_transcripts := session_transcripts st;
     world := with_stdout (stdout (world st) ++ shown_while_recording e)
                (world st) |}.

(** The record the log file receives for one transcript:
    [[<timestamp>]\n<text>\n\n]. *)
Definition log_record (t : datetime) (text : string) : string :=
  "[" +:+ strftime t +:+ "]" +:+ Str.nl +:+ text +:+ Str.nl +:+ Str.nl.

(** The log file [fp] with one more record. *)
Definition logged (fp : Path) (t : datetime) (text : string)
    (fs : gmap Path string) : gmap Path string :=
  <[fp := default EmptyString (fs !! fp) +:+ log_record t text]> fs.

(** The directories once [fp] has been written as a log file. *)
Definition with_parents (fp : Path) (w : World) : gset Path :=
  if present (PathLib.parent fp) w then dirs w
  else dirs w ∪ list_to_set (PathLib.lineage (PathLib.parent fp)).

(** The state [publish] leaves for a non-empty [text]. *)
Definition published (args : Args) (e : CycleEnv) (text : string) (st : State)
  : State :=
  let l := if append args then session_transcripts st ++ [text]
           else session_transcripts st in
  let w := world st in
  {| recorder := recorder st;
     session_transcripts := l;
     world :=
       {| files := match output args with
                   | Some fp => logged fp (log_time e) text (files w)
                   | None => files w
                   end;
          dirs := match output args with
                  | Some fp => with_parents fp w
                  | None => dirs w
                  end;
          clipboard := if append args then Str.join Str.nl l else text;
          stdout := stdout w
                    ++ [Completed (transcribe_end e - transcribe_start e)%Q
                          (if append args then " (appended)" else EmptyString);
                        Text (("  > " +:+ text) +:+ Str.nl);
                        Text (EmptyString +:+ Str.nl)];
          stderr := stderr w;
          whisper_runs := whisper_runs w;
          input_device := input_device w |} |}.

(** Successive turns that each reached [publish] with a text. *)
Definition publish_all (args : Args) (turns : list (CycleEnv * string))
  : M State unit :=
  for_each turns (fun turn => publish args (fst turn) (snd turn)).

(** The records of successive turns, in order. *)
Fixpoint log_records (turns : list (CycleEnv * string)) : string :=
  match turns with
  | [] => EmptyString
  | turn :: rest => log_record (log_time (fst turn)) (snd turn) +:+ log_records rest
  end.

(** ** Definitions used by the further properties *)

(** [m] leaves the observation [f] of the state as it found it, however it
    ends. *)
Definition preserves {S A X} (f : S -> X) (m : M S A) : Prop :=
  forall s, f (snd (m s)) = f s.

(** The [try: while True: ...  except KeyboardInterrupt: print("\nGoodbye!")]
    of [main], lines 175-233, run on the locals of [main]. *)
Definition main_try
    (whisper : list string -> gmap Path string -> CompletedProcess * gmap Path string)
    (wav_bytes : Z -> list float32 -> string)
    (args : Args) (session : list CycleEnv) : M State unit :=
  try_except (main_loop whisper wav_bytes args session) KeyboardInterrupt
    (io (print (Str.nl +:+ "Goodbye!"))).

(** The locals of [main] when it enters the loop: the recorder [r] that
    [Recorder()] built, no transcript, and the world with the banner
    printed. *)
Definition started (args : Args) (w : World) (r : Recorder) : State :=
  {| recorder := r; session_transcripts := [];
     world := snd (banner args r w) |}.

(** The blanks of ASCII: space, tab, newline, vertical tab, form feed,
    carriage return and the four separators. *)
Definition ascii_blank (c : ascii) : bool :=
  let n := nat_of_ascii c in
  ((9 <=? n) && (n <=? 13)) || ((28 <=? n) && (n <=? 32)).

Fixpoint blank (s : string) : bool :=
  match s with
  | EmptyString => true
  | String c s' => ascii_blank c && blank s'
  end.

(** ** Sample data *)

Module Samples.

Definition world0 : World :=
  {| files := ∅; dirs := ∅; clipboard := EmptyString; stdout := [];
     stderr := []; whisper_runs := []; input_device := Some 44100%Q |}.

Definition recorder0 : Recorder :=
  {| samplerate := 44100; recording := false; audio_data := [];
     _start_time := 0; stream := None |}.

Definition state0 : State :=
  {| recorder := recorder0; session_transcripts := []; world := world0 |}.

Definition chunks0 : list chunk := [[1; 2]; [3]]%N.

Definition status (code : Z) (err : string) : CompletedProcess :=
  {| returncode := code; cp_stdout := EmptyString; cp_stderr := err |}.

(** Recognizers: one that exits with status 1 and ["x"] on its standard
    error, one that does the same after writing its text file, one that
    exits with status 0 and writes nothing, and one that works. *)
Definition whisper_fails (argv : list string) (fs : gmap Path string)
  : CompletedProcess * gmap Path string :=
  (status 1 "x", fs).

Definition whisper_fails_late (argv : list string) (fs : gmap Path string)
  : CompletedProcess * gmap Path string :=
  (status 1 "x", <[["tmp"; "tmpk3x9_q2a.txt"] := "hel"]> fs).

Definition whisper_silent (argv : list string) (fs : gmap Path string)
  : CompletedProcess * gmap Path string :=
  (status 0 EmptyString, fs).

Definition whisper_hello (argv : list string) (fs : gmap Path string)
  : CompletedProcess * gmap Path string :=
  (status 0 EmptyString, <[["tmp"; "tmpk3x9_q2a.txt"] := " hello" +:+ Str.nl]> fs).

Definition wav0 (rate : Z) (audio : list float32) : string := "RIFF".

Definition temp0 : Path := ["tmp"; "tmpk3x9_q2a.wav"].

Definition text0 : Path := ["tmp"; "tmpk3x9_q2a.txt"].

Definition noon : datetime :=
  {| year := 2024; month := 3; day := 9; hour := 12; minute := 0; second := 5 |}.

Definition env0 : CycleEnv :=
  {| key_start := Enter; arm_time := 100; polls := [100; 161 # 1]%Q;
     chunks := chunks0; key_stop := Enter; temp_path := temp0;
     transcribe_start := 200; transcribe_end := 203; log_time := noon |}.

Definition args0 : Args :=
  {| model := "base"; lang := "en"; append := false; output := None |}.

Definition log0 : Path := ["home"; "notes"; "speech.txt"].

Definition args_replace : Args :=
  {| model := "base"; lang := "en"; append := false; output := Some log0 |}.

Definition args_append : Args :=
  {| model := "base"; lang := "en"; append := true; output := Some log0 |}.

(** A turn in which the backend delivers nothing. *)
Definition env_silent : CycleEnv :=
  {| key_start := Enter; arm_time := 100; polls := [100]%Q; chunks := [];
     key_stop := Enter; temp_path := temp0; transcribe_start := 200;
     transcribe_end := 203; log_time := noon |}.

Definition later : datetime :=
  {| year := 2024; month := 3; day := 9; hour := 12; minute := 1; second := 10 |}.

Definition env1 : CycleEnv :=
  {| key_start := Enter; arm_time := 300; polls := []; chunks := chunks0;
     key_stop := Enter; temp_path := temp0; transcribe_start := 400;
     transcribe_end := 402; log_time := later |}.

(** The world and the state of [main] once the temporary file is written. *)
Definition world_staged : World := with_files {[temp0 := "RIFF"]} world0.

Definition state_staged : State := with_world world_staged state0.

End Samples.

Module MoreSamples.

(** A machine without an input device. *)
Definition world_mute : World :=
  {| files := ∅; dirs := ∅; clipboard := EmptyString; stdout := [];
     stderr := []; whisper_runs := []; input_device := None |}.

(** Ctrl-C at the first prompt, and Ctrl-C while recording. *)
Definition env_quit : CycleEnv :=
  {| key_start := CtrlC; arm_time := 0; polls := []; chunks := [];
     key_stop := Enter; temp_path := Samples.temp0; transcribe_start := 0;
     transcribe_end := 0; log_time := Samples.noon |}.

Definition env_cut : CycleEnv :=
  {| key_start := Enter; arm_time := 100; polls := [101]%Q;
     chunks := Samples.chunks0; key_stop := CtrlC;
     temp_path := Samples.temp0; transcribe_start := 0; transcribe_end := 0;
     log_time := Samples.noon |}.

(** A recognizer that exits with status 0 and writes a blank text file. *)
Definition whisper_blank (argv : list string) (fs : gmap Path string)
  : CompletedProcess * gmap Path string :=
  (Samples.status 0 EmptyString, <[Samples.text0 := " " +:+ Str.nl]> fs).

Definition stem0 : string := "tmpk3x9_q2a".

End MoreSamples.

(** * gen_json_schema: examples for an inferred schema

    A shallow embedding of [gen_json_schema.py]: [add_example], [gen_schema],
    [json_schema_to_yaml] and the script's entry block.

    A JSON value is what [json.load] returns.  A dictionary is the list of
    its entries in insertion order (a Python dictionary has no repeated key,
    and nothing below adds one); a float is taken as a rational, so the
    values [nan] and [inf] are left out.

    The functions mutate the schema they are given and may raise.  A call is
    embedded as a function that gives back the schema as the call left it,
    and the exception if one was raised: what was changed before a [raise]
    stays changed. *)

Module GenJsonSchema.

#[local] Set Warnings "-register-all".

Inductive json : Type :=
| JNull
| JBool (b : bool)
| JInt (n : Z)
| JFloat (x : Q)
| JStr (s : string)
| JList (items : list json)
| JDict (entries : list (string * json)).

Inductive error : Type :=
| AttributeError
| TypeError
| KeyError
| ValueError
| FileNotFoundError
| JSONDecodeError.

(** [bool(v)] *)
Definition truthy (v : json) : bool :=
  match v with
  | JNull => false
  | JBool b => b
  | JInt n => negb (n =? 0)%Z
  | JFloat x => negb (Qeq_bool x 0)
  | JStr s => match s with EmptyString => false | _ => true end
  | JList items => match items with [] => false | _ => true end
  | JDict entries => match entries with [] => false | _ => true end
  end.

(** [d.get(k)] *)
Fixpoint dict_get (k : string) (d : list (string * json)) : option json :=
  match d with
  | [] => None
  | (k', v) :: rest => if String.eqb k k' then Some v else dict_get k rest
  end.

(** [d[k] = v]: an entry that is there keeps its place, a new one goes last. *)
Fixpoint dict_set (k : string) (v : json) (d : list (string * json))
  : list (string * json) :=
  match d with
  | [] => [(k, v)]
  | (k', v') :: rest =>
      if String.eqb k k' then (k', v) :: rest else (k', v') :: dict_set k v rest
  end.

Section At.
Variable f : json -> json * option error.

(** [f(d[k])], where [f] mutates its argument: [None] when [k] is missing. *)
Fixpoint call_at (k : string) (d : list (string * json))
  : option (list (string * json) * option error) :=
  match d with
  | [] => None
  | (k', v) :: rest =>
      if String.eqb k k' then
        let '(v', err) := f v in Some ((k', v') :: rest, err)
      else
        match call_at k rest with
        | Some (rest', err) => Some ((k', v) :: rest', err)
        | None => None
        end
  end.
End At.

Section Items.
Variable body : string -> json -> json * option error.

(** [for key, value in d.items(): body(key, value)], where [body] mutates
    [value] and may raise: the entries after a raise are not visited. *)
Fixpoint for_items (d : list (string * json))
  : list (string * json) * option error :=
  match d with
  | [] => ([], None)
  | (key, value) :: rest =>
      let '(value', err) := body key value in
      match err with
      | Some e => ((key, value') :: rest, Some e)
      | None =>
          let '(rest', err') := for_items rest in ((key, value') :: rest', err')
      end
  end.
End Items.

(** [v == s], for [v] the result of a [get] *)
Definition is_str (v : option json) (s : string) : bool :=
  match v with Some (JStr s') => String.eqb s' s | _ => false end.

(** [k in d] *)
Definition has (k : string) (d : list (string * json)) : bool :=
  match dict_get k d with Some _ => true | None => false end.

(** [add_example(schema, example)].

    A value that is no dictionary has no [get] ([AttributeError]) and, when
    indexed or assigned to by a string, raises [TypeError].

    The source has two [if] statements in a row.  The first one leaves
    [schema["type"]] as it is, so that the two tests never hold in the same
    call: the second is written as the [else] of the first
    ([add_example_runs_both_tests] below compares the two readings). *)
Fixpoint add_example (schema example : json) {struct schema}
  : json * option error :=
  match schema with
  | JDict d =>
      if is_str (dict_get "type" d) "array" && has "items" d then
        match example with
        | JList (first :: _) =>
            match call_at (fun items => add_example items first) "items" d with
            | Some (d', err) => (JDict d', err)
            | None => (schema, Some KeyError)
            end
        | _ => (schema, None)
        end
      else if is_str (dict_get "type" d) "object" && has "properties" d then
        match
          call_at
            (fun properties =>
               match properties with
               | JDict props =>
                   let '(props', err) :=
                     for_items
                       (fun key subschema =>
                          match example with
                          | JDict ex =>
                              match dict_get key ex with
                              | Some value =>
                                  if truthy value then
                                    match value with
                                    | JDict _ => add_example subschema value
                                    | JList (JDict first :: _) =>
                                        match subschema with
                                        | JDict sd =>
                                            match
                                              call_at
                                                (fun items =>
                                                   add_example items
                                                     (JDict first))
                                                "items" sd
                                            with
                                            | Some (sd', err) =>
                                                (JDict sd', err)
                                            | None =>
                                                (subschema, Some KeyError)
                                            end
                                        | _ => (subschema, Some TypeError)
                                        end
                                    | JList _ => (subschema, None)
                                    | _ =>
                                        match subschema with
                                        | JDict sd =>
                                            (JDict
                                               (dict_set "example" value sd),
                                             None)
                                        | _ => (subschema, Some TypeError)
                                        end
                                    end
                                  else (subschema, None)
                              | None => (subschema, None)
                              end
                          | _ => (subschema, Some AttributeError)
                          end)
                       props in
                   (JDict props', err)
               | _ => (properties, Some AttributeError)
               end)
            "properties" d
        with
        | Some (d', err) => (JDict d', err)
        | None => (schema, Some KeyError)
        end
      else (schema, None)
  | _ => (schema, Some AttributeError)
  end.

(** *** The parts of [add_example], by name *)

(** The body of the loop (lines 21 to 28), for an example that is a
    dictionary. *)
Definition property_body (ex : list (string * json)) (key : string)
    (subschema : json) : json * option error :=
  match dict_get key ex with
  | Some value =>
      if truthy value then
        match value with
        | JDict _ => add_example subschema value
        | JList (JDict first :: _) =>
            match subschema with
            | JDict sd =>
                match call_at (fun items => add_example items (JDict first))
                        "items" sd with
                | Some (sd', err) => (JDict sd', err)
                | None => (subschema, Some KeyError)
                end
            | _ => (subschema, Some TypeError)
            end
        | JList _ => (subschema, None)
        | _ =>
            match subschema with
            | JDict sd => (JDict (dict_set "example" value sd), None)
            | _ => (subschema, Some TypeError)
            end
        end
      else (subschema, None)
  | None => (subschema, None)
  end.

(** The body of the loop, for any example. *)
Definition object_body (example : json) (key : string) (subschema : json)
  : json * option error :=
  match example with
  | JDict ex => property_body ex key subschema
  | _ => (subschema, Some AttributeError)
  end.

(** The loop over [schema["properties"].items()]. *)
Definition on_properties (example properties : json) : json * option error :=
  match properties with
  | JDict props =>
      let '(props', err) := for_items (object_body example) props in
      (JDict props', err)
  | _ => (properties, Some AttributeError)
  end.

(** The first [if] statement (lines 16 to 18). *)
Definition array_step (schema example : json) : json * option error :=
  match schema with
  | JDict d =>
      if is_str (dict_get "type" d) "array" && has "items" d then
        match example with
        | JList (first :: _) =>
            match call_at (fun items => add_example items first) "items" d with
            | Some (d', err) => (JDict d', err)
            | None => (schema, Some KeyError)
            end
        | _ => (schema, None)
        end
      else (schema, None)
  | _ => (schema, Some AttributeError)
  end.

(** The second [if] statement (lines 19 to 28). *)
Definition object_step (schema example : json) : json * option error :=
  match schema with
  | JDict d =>
      if is_str (dict_get "type" d) "object" && has "properties" d then
        match call_at (on_properties example) "properties" d with
        | Some (d', err) => (JDict d', err)
        | None => (schema, Some KeyError)
        end
      else (schema, None)
  | _ => (schema, Some AttributeError)
  end.

(** *** Definitions used by the statements *)

Definition is_scalar (v : json) : bool :=
  match v with JList _ | JDict _ => false | _ => true end.

Fixpoint size (v : json) : nat :=
  match v with
  | JList items => S (list_sum (map size items))
  | JDict entries => S (list_sum (map (fun kv => size (snd kv)) entries))
  | _ => 1
  end.


(** A value whose lists are cut down to their first element, at every
    depth. *)
Fixpoint heads (v : json) : json :=
  match v with
  | JList (first :: _) => JList [heads first]
  | JDict entries => JDict (map (fun kv => (fst kv, heads (snd kv))) entries)
  | _ => v
  end.


(** ** The script *)

(** The files the script can see, by the path it is given for them (two
    spellings of one path are two files here), and what it has printed.
    Opening a file to write always succeeds; opening one to read raises
    [FileNotFoundError] when nothing is there. *)
Record Host : Type := {
  files : gmap string string;
  stdout : list string;              (* oldest first *)
}.

(** [with open(path, "w") as f: f.write(text)] *)
Definition write_file (path text : string) (h : Host) : Host :=
  {| files := <[path := text]> (files h); stdout := stdout h |}.

(** [print(s)] *)
Definition print (s : string) (h : Host) : Host :=
  {| files := files h; stdout := stdout h ++ [s +:+ Str.nl] |}.

(** [bool(o)], for [o] a string or [None] *)
Definition given (o : option string) : bool :=
  match o with Some (String _ _) => true | _ => false end.

(** [a or b] *)
Definition or_else (a b : option string) : option string :=
  if given a then a else b.

(** [f"{o}"] *)
Definition str (o : option string) : string :=
  match o with Some s => s | None => "None" end.

(** The command line: [-i] is required, [-o] and [-y] default to [None]. *)
Record Args : Type := {
  input : string;
  output_json : option string;
  output_yaml : option string;
}.

Section Script.

(** [SchemaBuilder().add_object(data)] followed by [to_schema()], of genson. *)
Variable to_schema : json -> json.

(** [json.load], on the text of a file: [None] when the text is no JSON. *)
Variable json_load : string -> option json.

(** [yaml.dump(v, sort_keys=False)] *)
Variable yaml_dump : json -> string.

(** [json.dump(v, f, ensure_ascii=False, indent=2)], as the text written *)
Variable json_dump : json -> string.

(** [with open(path) as f: json.load(f)] *)
Definition load_file (path : string) (h : Host) : error + json :=
  match files h !! path with
  | Some text =>
      match json_load text with
      | Some v => inr v
      | None => inl JSONDecodeError
      end
  | None => inl FileNotFoundError
  end.

(** [gen_schema(data)] *)
Definition gen_schema (data : json) : error + json :=
  let schema := to_schema data in
  match add_example schema data with
  | (schema', None) => inr schema'
  | (_, Some e) => inl e
  end.

(** [json_schema_to_yaml(json_schema, json_path, yaml_path)] *)
Definition json_schema_to_yaml (json_schema : option json)
    (json_path yaml_path : option string) (h : Host) : option error * Host :=
  let loaded : error + json :=
    match json_schema with
    | Some v =>
        if truthy v then inr v
        else if given json_path then load_file (str json_path) h
        else inl ValueError
    | None =>
        if given json_path then load_file (str json_path) h
        else inl ValueError
    end in
  match loaded with
  | inl e => (Some e, h)
  | inr schema =>
      let yaml_str := yaml_dump schema in
      if given yaml_path then (None, write_file (str yaml_path) yaml_str h)
      else (None, print yaml_str h)
  end.

(** The block under [if __name__ == "__main__"], after the arguments are
    parsed. *)
Definition main (args : Args) (h : Host) : option error * Host :=
  match load_file (input args) h with
  | inl e => (Some e, h)
  | inr data =>
      match gen_schema data with
      | inl e => (Some e, h)
      | inr schema =>
          if given (output_yaml args)
             || (negb (given (output_yaml args))
                 && negb (given (output_json args)))
          then
            let output_yaml' := or_else (output_yaml args) (Some "schema.yml") in
            match json_schema_to_yaml (Some schema) None output_yaml' h with
            | (Some e, h') => (Some e, h')
            | (None, h') =>
                (None,
                 print ("Schema generated and saved to "
                        +:+ str (or_else (output_json args) output_yaml'))
                   h')
            end
          else
            let h' := write_file (str (output_json args)) (json_dump schema) h in
            (None,
             print ("Schema generated and saved to "
                    +:+ str (or_else (output_json args) (output_yaml args)))
               h')
      end
  end.

End Script.

(** ** Sample data *)

Module SampleData.

Definition person_properties : list (string * json) :=
  [("name", JDict [("type", JStr "string")]);
   ("age", JDict [("type", JStr "integer")]);
   ("nick", JDict [("type", JStr "string")])].

(** The schema genson infers for [person]. *)
Definition person_schema : list (string * json) :=
  [("$schema", JStr "http://json-schema.org/schema#");
   ("type", JStr "object");
   ("properties", JDict person_properties);
   ("required", JList [JStr "age"; JStr "name"; JStr "nick"])].

Definition person : list (string * json) :=
  [("name", JStr "Ada"); ("age", JInt 36); ("nick", JStr "")].

(** [person_schema], as [add_example] leaves it for [person]. *)
Definition person_with_examples : list (string * json) :=
  [("$schema", JStr "http://json-schema.org/schema#");
   ("type", JStr "object");
   ("properties",
    JDict
      [("name", JDict [("type", JStr "string"); ("example", JStr "Ada")]);
       ("age", JDict [("type", JStr "integer"); ("example", JInt 36)]);
       ("nick", JDict [("type", JStr "string")])]);
   ("required", JList [JStr "age"; JStr "name"; JStr "nick"])].

(** A person of whom nothing is known. *)
Definition nobody : list (string * json) :=
  [("name", JStr ""); ("age", JInt 0); ("nick", JNull)].

(** A schema whose array has no ["items"]. *)
Definition owner_properties : list (string * json) :=
  [("pets", JDict [("type", JStr "array")])].

Definition owner_schema : list (string * json) :=
  [("type", JStr "object"); ("properties", JDict owner_properties)].

Definition owner : list (string * json) :=
  [("pets", JList [JDict [("kind", JStr "cat")]])].

Definition person_text : string := "<the text of person.json>".

Definition load0 (text : string) : option json :=
  if String.eqb text person_text then Some (JDict person) else None.

Definition to_schema0 (data : json) : json := JDict person_schema.

Definition yaml0 (v : json) : string := "yaml".

Definition json0 (v : json) : string := "json".

Definition host0 : Host :=
  {| files := {[ "person.json" := person_text ]}; stdout := [] |}.

Definition args_both : Args :=
  {| input := "person.json"; output_json := Some "out.json";
     output_yaml := Some "out.yml" |}.


End SampleData.

End GenJsonSchema.

(** * Properties *)

(** Unfolding the monad: one step of a computation at a time. *)
Ltac run :=
  cbv beta iota zeta delta
    [bind ret raise gets modify self_set io zoom lift_result
     result_of state_after].

Lemma bind_inr {S A B} (m : M S A) (k : A -> M S B) s a s' :
  m s = (inr a, s') -> bind m k s = k a s'.
Proof. intros H. unfold bind. now rewrite H. Qed.

Lemma bind_inl {S A B} (m : M S A) (k : A -> M S B) s e s' :
  m s = (inl e, s') -> bind m k s = (inl e, s').
Proof. intros H. unfold bind. now rewrite H. Qed.

Lemma with_world_world st : with_world (world st) st = st.
Proof. now destruct st. Qed.

Lemma with_recorder_recorder st : with_recorder (recorder st) st = st.
Proof. now destruct st. Qed.

Lemma io_spec {A} (m : M World A) st :
  io m st = (fst (m (world st)), with_world (snd (m (world st))) st).
Proof. unfold io, zoom. now destruct (m (world st)). Qed.

Lemma io_inr {A} (m : M World A) st a w' :
  m (world st) = (inr a, w') -> io m st = (inr a, with_world w' st).
Proof. intros H. now rewrite io_spec, H. Qed.

(** ** Recorder *)

Module RecorderFacts.
Import RecorderMethods.

Lemma start_spec st now :
  is_Some (input_device (world st)) ->
  start now st = (inr tt, with_recorder (armed now (recorder st)) st).
Proof.
  intros [rate Hdev]. unfold start, InputStream, the_stream. run.
  destruct st as [r l w]; simpl in *. now rewrite Hdev.
Qed.

Lemma start_no_device st now :
  input_device (world st) = None ->
  result_of (start now) st = inl PortAudioError.
Proof.
  intros Hdev. unfold start, InputStream. run.
  destruct st as [r l w]; simpl in *. now rewrite Hdev.
Qed.

Lemma callback_armed st indata :
  recording (recorder st) = true ->
  _callback indata st =
    (inr tt,
     with_recorder (set_audio_data (audio_data (recorder st) ++ [indata])
                      (recorder st)) st).
Proof. intros H. unfold _callback. run. now rewrite H. Qed.

Lemma callback_idle st indata :
  recording (recorder st) = false -> _callback indata st = (inr tt, st).
Proof. intros H. unfold _callback. run. now rewrite H. Qed.

Lemma callbacks_armed cs : forall st,
  recording (recorder st) = true ->
  for_each cs _callback st =
    (inr tt,
     with_recorder (set_audio_data (audio_data (recorder st) ++ cs)
                      (recorder st)) st).
Proof.
  induction cs as [|c cs IH]; intros st Hrec; simpl.
  - rewrite app_nil_r. destruct st as [[] l w]. reflexivity.
  - erewrite bind_inr by (apply callback_armed; exact Hrec).
    rewrite IH by exact Hrec.
    destruct st as [r l w]; simpl. unfold set_audio_data; simpl.
    now rewrite <- app_assoc.
Qed.

Lemma callbacks_idle cs : forall st,
  recording (recorder st) = false -> for_each cs _callback st = (inr tt, st).
Proof.
  induction cs as [|c cs IH]; intros st Hrec; simpl; [reflexivity|].
  erewrite bind_inr by (apply callback_idle; exact Hrec). now apply IH.
Qed.

Lemma stop_spec st s :
  stream (recorder st) = Some s ->
  stop st =
    (inr (concat (audio_data (recorder st))),
     with_recorder (disarmed (recorder st)) st).
Proof.
  intros Hs. unfold stop, the_stream. run.
  destruct st as [r l w]; simpl in *. rewrite Hs.
  unfold disarmed, with_recorder, set_stream, set_recording; simpl.
  now destruct (audio_data r).
Qed.

Lemma stop_no_stream st :
  stream (recorder st) = None -> result_of stop st = inl AttributeError.
Proof.
  intros Hs. unfold stop, the_stream. run.
  destruct st as [r l w]; simpl in *. now rewrite Hs.
Qed.

Lemma elapsed_spec st now :
  elapsed now st =
    (inr (if nonzero (_start_time (recorder st))
          then (now - _start_time (recorder st))%Q else 0%Q), st).
Proof. unfold elapsed. run. now destruct (nonzero _). Qed.

Lemma length_concat_sum (cs : list chunk) :
  length (concat cs) = list_sum (map (@length float32) cs).
Proof.
  induction cs as [|c cs IH]; simpl; [reflexivity|].
  now rewrite length_app, IH.
Qed.

End RecorderFacts.

(** C3. Whatever the recorder held before, the chunks delivered to
    [_callback] between [start] and [stop] are exactly what [stop] returns:
    their concatenation in delivery order, of as many samples as the chunks
    have together; none is dropped or moved. *)
Theorem stop_returns_delivered_chunks st now (cs : list chunk) :
  is_Some (input_device (world st)) ->
  exists st',
    (RecorderMethods.start now ;;
     for_each cs RecorderMethods._callback ;;
     RecorderMethods.stop) st = (inr (concat cs), st')
    /\ audio_data (recorder st') = cs
    /\ recording (recorder st') = false
    /\ length (concat cs) = list_sum (map (@length float32) cs).
Proof.
  intros Hdev. eexists.
  erewrite bind_inr by (apply RecorderFacts.start_spec; exact Hdev).
  erewrite bind_inr by (apply RecorderFacts.callbacks_armed; reflexivity).
  erewrite RecorderFacts.stop_spec by reflexivity.
  simpl. repeat split. apply RecorderFacts.length_concat_sum.
Qed.

Lemma stop_returns_delivered_chunks_witness :
  is_Some (input_device (world Samples.state0))
  /\ exists st',
      (RecorderMethods.start 100 ;;
       for_each Samples.chunks0 RecorderMethods._callback ;;
       RecorderMethods.stop) Samples.state0 = (inr [1; 2; 3]%N, st')
      /\ audio_data (recorder st') = Samples.chunks0
      /\ recording (recorder st') = false
      /\ length [1; 2; 3]%N = 3.
Proof.
  assert (Hdev : is_Some (input_device (world Samples.state0)))
    by (eexists; reflexivity).
  split; [exact Hdev|].
  exact (stop_returns_delivered_chunks Samples.state0 100 Samples.chunks0 Hdev).
Defined.

(** C8, as stated, fails after a disarm: [stop] leaves [_start_time] as it
    is, so a recorder armed at clock reading 100 and disarmed again still
    answers 60 seconds at reading 160, though it is not recording. *)
Lemma elapsed_after_stop_is_not_zero :
  let st := state_after (RecorderMethods.start 100 ;; RecorderMethods.stop)
              Samples.state0 in
  recording (recorder st) = false
  /\ result_of (RecorderMethods.elapsed 160) st = inr 60%Q
  /\ ~ (60 == 0)%Q.
Proof. repeat split. discriminate. Qed.

(** C8, amended. [elapsed] answers 0 on a recorder that was never armed
    (the object as [__init__] builds it).  Once [start] has run at a
    non-zero clock reading [t], it answers [now - t]: while armed, and just
    the same after [stop]. *)
Theorem elapsed_counts_from_last_start st t (cs : list chunk) now :
  is_Some (input_device (world st)) ->
  nonzero t = true ->
  let st_armed :=
    state_after (RecorderMethods.start t ;; for_each cs RecorderMethods._callback) st in
  let st_disarmed := state_after RecorderMethods.stop st_armed in
  (forall w r l,
      result_of RecorderMethods.__init__ w = inr r ->
      result_of (RecorderMethods.elapsed now)
        {| recorder := r; session_transcripts := l; world := w |} = inr 0%Q)
  /\ recording (recorder st_armed) = true
  /\ result_of (RecorderMethods.elapsed now) st_armed = inr (now - t)%Q
  /\ recording (recorder st_disarmed) = false
  /\ result_of (RecorderMethods.elapsed now) st_disarmed = inr (now - t)%Q.
Proof.
  intros Hdev Ht st_armed st_disarmed.
  assert (Harmed : st_armed =
            with_recorder
              (set_audio_data cs (armed t (recorder st))) st).
  { unfold st_armed, state_after.
    erewrite bind_inr by (apply RecorderFacts.start_spec; exact Hdev).
    rewrite RecorderFacts.callbacks_armed by reflexivity. reflexivity. }
  assert (Hdisarmed : st_disarmed =
            with_recorder
              (disarmed (set_audio_data cs (armed t (recorder st)))) st).
  { unfold st_disarmed, state_after.
    erewrite RecorderFacts.stop_spec by (rewrite Harmed; reflexivity).
    rewrite Harmed. reflexivity. }
  split; [|rewrite Hdisarmed, Harmed; unfold result_of;
           rewrite !RecorderFacts.elapsed_spec; simpl; rewrite Ht; auto].
  intros w r l Hinit. unfold result_of in *.
  rewrite RecorderFacts.elapsed_spec. simpl.
  unfold RecorderMethods.__init__ in Hinit. revert Hinit. run.
  destruct (input_device w); simpl; [|discriminate].
  intros [= <-]. reflexivity.
Qed.

Lemma elapsed_counts_from_last_start_witness :
  let st_armed :=
    state_after (RecorderMethods.start 100 ;;
                 for_each Samples.chunks0 RecorderMethods._callback)
      Samples.state0 in
  result_of (RecorderMethods.elapsed 160) st_armed = inr (160 - 100)%Q
  /\ result_of (RecorderMethods.elapsed 160)
       (state_after RecorderMethods.stop st_armed) = inr (160 - 100)%Q.
Proof.
  assert (Hdev : is_Some (input_device (world Samples.state0)))
    by (eexists; reflexivity).
  assert (Ht : nonzero 100 = true) by reflexivity.
  pose proof (elapsed_counts_from_last_start Samples.state0 100
                Samples.chunks0 160 Hdev Ht) as H.
  split; [exact (proj1 (proj2 (proj2 H)))
         | exact (proj2 (proj2 (proj2 (proj2 H))))].
Defined.

(** C9, as stated, fails: a second [start] on an armed recorder that
    already holds a chunk returns normally and hands back an empty buffer
    and a new start time. *)
Lemma start_while_armed_restarts :
  let st1 :=
    state_after (RecorderMethods.start 100 ;; RecorderMethods._callback [1; 2]%N)
      Samples.state0 in
  recording (recorder st1) = true
  /\ audio_data (recorder st1) = [[1; 2]%N]
  /\ result_of (RecorderMethods.start 200) st1 = inr tt
  /\ audio_data (recorder (state_after (RecorderMethods.start 200) st1)) = []
  /\ _start_time (recorder (state_after (RecorderMethods.start 200) st1)) = 200%Q.
Proof. repeat split. Qed.

(** C9, amended. [start] does not look at [recording]: on an armed
    recorder it returns normally, like a first call, having emptied the
    buffer, taken a new start time and started a fresh stream.  (Its one
    exception is the backend's, when no stream can be opened.) *)
Theorem start_while_armed_is_not_detected st now :
  recording (recorder st) = true ->
  is_Some (input_device (world st)) ->
  RecorderMethods.start now st
  = (inr tt, with_recorder (armed now (recorder st)) st).
Proof. intros _ Hdev. now apply RecorderFacts.start_spec. Qed.

Lemma start_while_armed_is_not_detected_witness :
  let st1 := state_after (RecorderMethods.start 100) Samples.state0 in
  RecorderMethods.start 200 st1
  = (inr tt, with_recorder (armed 200 (recorder st1)) st1).
Proof.
  apply start_while_armed_is_not_detected; [reflexivity | eexists; reflexivity].
Defined.

(** ** transcribe *)

Section TranscribeFacts.

Variable whisper :
  list string -> gmap Path string -> CompletedProcess * gmap Path string.

Lemma run_whisper_spec argv w :
  run_whisper whisper argv w
  = (inr (whisper_result whisper argv w), after_whisper whisper argv w).
Proof.
  unfold run_whisper, whisper_result, after_whisper.
  now destruct (whisper argv (files w)).
Qed.

Lemma transcribe_failed w audio_path model lang :
  let argv := whisper_argv audio_path model lang in
  returncode (whisper_result whisper argv w) <> 0%Z ->
  transcribe whisper audio_path model lang w
  = (inr EmptyString,
     with_stderr
       (stderr w ++ [("Whisper error: " +:+ cp_stderr (whisper_result whisper argv w))
                     +:+ Str.nl])
       (after_whisper whisper argv w)).
Proof.
  intros argv Hrc. unfold transcribe.
  erewrite bind_inr by apply run_whisper_spec. fold argv.
  destruct (Z.eqb_spec (returncode (whisper_result whisper argv w)) 0);
    [contradiction|]. reflexivity.
Qed.

Lemma transcribe_no_artifact w audio_path model lang txt_path :
  let argv := whisper_argv audio_path model lang in
  returncode (whisper_result whisper argv w) = 0%Z ->
  PathLib.with_suffix audio_path ".txt" = inr txt_path ->
  present txt_path (after_whisper whisper argv w) = false ->
  transcribe whisper audio_path model lang w
  = (inr EmptyString, after_whisper whisper argv w).
Proof.
  intros argv Hrc Htxt Habsent. unfold transcribe.
  erewrite bind_inr by apply run_whisper_spec. fold argv.
  rewrite Hrc, Htxt. simpl. run. unfold path_exists, gets.
  now rewrite Habsent.
Qed.

Lemma present_file p w content :
  files w !! p = Some content -> present p w = true.
Proof.
  intros H. unfold present.
  rewrite (bool_decide_true (is_Some _)) by (rewrite H; eauto).
  now rewrite orb_true_r.
Qed.

Lemma absent_no_file p w : present p w = false -> files w !! p = None.
Proof.
  intros H. destruct (files w !! p) eqn:E; [|reflexivity].
  now rewrite (present_file _ _ _ E) in H.
Qed.

Lemma transcribe_artifact w audio_path model lang txt_path content :
  let argv := whisper_argv audio_path model lang in
  returncode (whisper_result whisper argv w) = 0%Z ->
  PathLib.with_suffix audio_path ".txt" = inr txt_path ->
  files (after_whisper whisper argv w) !! txt_path = Some content ->
  transcribe whisper audio_path model lang w
  = (inr (Str.strip content),
     with_files (delete txt_path (files (after_whisper whisper argv w)))
       (after_whisper whisper argv w)).
Proof.
  intros argv Hrc Htxt Hfile. unfold transcribe.
  erewrite bind_inr by apply run_whisper_spec. fold argv.
  rewrite Hrc, Htxt. simpl. run. unfold path_exists, gets.
  rewrite (present_file _ _ _ Hfile).
  unfold read_text, unlink. rewrite Hfile. cbn beta iota. now rewrite Hfile.
Qed.

(** Whatever [transcribe] returns, it went one of these three ways. *)
Lemma transcribe_returns w audio_path model lang text w' :
  let argv := whisper_argv audio_path model lang in
  transcribe whisper audio_path model lang w = (inr text, w') ->
  (returncode (whisper_result whisper argv w) <> 0%Z /\ text = EmptyString
   /\ files w' = files (after_whisper whisper argv w))
  \/ (returncode (whisper_result whisper argv w) = 0%Z /\ text = EmptyString
      /\ w' = after_whisper whisper argv w
      /\ exists txt_path,
          PathLib.with_suffix audio_path ".txt" = inr txt_path
          /\ files w' !! txt_path = None)
  \/ (returncode (whisper_result whisper argv w) = 0%Z
      /\ exists txt_path content,
          PathLib.with_suffix audio_path ".txt" = inr txt_path
          /\ files (after_whisper whisper argv w) !! txt_path = Some content
          /\ text = Str.strip content
          /\ files w' = delete txt_path (files (after_whisper whisper argv w))).
Proof.
  intros argv H.
  destruct (Z.eq_dec (returncode (whisper_result whisper argv w)) 0%Z) as [Hrc|Hrc].
  - right.
    destruct (PathLib.with_suffix audio_path ".txt") as [e|txt_path] eqn:Htxt.
    { exfalso. revert H. unfold transcribe.
      erewrite bind_inr by apply run_whisper_spec. fold argv.
      rewrite Hrc, Htxt. simpl. discriminate. }
    destruct (files (after_whisper whisper argv w) !! txt_path) as [content|] eqn:Hfile.
    + right. split; [exact Hrc|]. exists txt_path, content.
      rewrite (transcribe_artifact _ _ _ _ _ _ Hrc Htxt Hfile) in H.
      injection H as <- <-. auto.
    + left.
      destruct (present txt_path (after_whisper whisper argv w)) eqn:Hex.
      * exfalso. revert H. unfold transcribe.
        erewrite bind_inr by apply run_whisper_spec. fold argv.
        rewrite Hrc, Htxt. simpl. run. unfold path_exists, gets.
        rewrite Hex. unfold read_text. rewrite Hfile. discriminate.
      * rewrite (transcribe_no_artifact _ _ _ _ _ Hrc Htxt Hex) in H.
        injection H as <- <-. eauto 10.
  - left. rewrite (transcribe_failed _ _ _ _ Hrc) in H.
    injection H as <- <-. auto.
Qed.

(** [transcribe] leaves the clipboard, the terminal and the directories
    alone, however it ends. *)
Lemma transcribe_frame w audio_path model lang :
  let w' := snd (transcribe whisper audio_path model lang w) in
  clipboard w' = clipboard w /\ stdout w' = stdout w /\ dirs w' = dirs w.
Proof.
  unfold transcribe.
  set (argv := whisper_argv audio_path model lang).
  erewrite bind_inr by apply run_whisper_spec.
  destruct (negb _); [now simpl|].
  destruct (PathLib.with_suffix audio_path ".txt") as [e|txt_path]; [now simpl|].
  simpl. run. unfold path_exists, gets.
  destruct (present txt_path _); [|now simpl].
  unfold read_text, unlink.
  destruct (files (after_whisper whisper argv w) !! txt_path) eqn:E;
    [|now simpl].
  cbn beta iota. rewrite E. now simpl.
Qed.

End TranscribeFacts.

(** ** The loop body *)

Lemma timer_ticks polls : forall st,
  for_each polls timer_tick st
  = (inr tt,
     with_world
       (with_stdout
          (stdout (world st)
           ++ map (fun now =>
                     Text (timer_line
                             (if nonzero (_start_time (recorder st))
                              then (now - _start_time (recorder st))%Q
                              else 0%Q))) polls)
          (world st)) st).
Proof.
  induction polls as [|now polls IH]; intros st; simpl.
  - rewrite app_nil_r. now destruct st as [r l []].
  - unfold timer_tick at 1.
    erewrite bind_inr; [|erewrite bind_inr by apply RecorderFacts.elapsed_spec;
                         reflexivity].
    rewrite IH. destruct st as [r l w]; simpl.
    unfold with_world, with_stdout; simpl. now rewrite <- app_assoc.
Qed.

Lemma record_spec e st :
  key_start e = Enter -> key_stop e = Enter ->
  is_Some (input_device (world st)) ->
  record e st = (inr (concat (chunks e)), recorded e st).
Proof.
  intros K1 K2 Hdev. unfold record. rewrite K1, K2.
  erewrite bind_inr by reflexivity.
  erewrite bind_inr by (apply RecorderFacts.start_spec; exact Hdev).
  erewrite bind_inr by apply timer_ticks.
  erewrite bind_inr by (apply RecorderFacts.callbacks_armed; reflexivity).
  erewrite bind_inr by reflexivity.
  erewrite bind_inr by reflexivity.
  erewrite RecorderFacts.stop_spec by reflexivity.
  destruct st as [r l w]; simpl. unfold recorded, shown_while_recording; simpl.
  unfold with_world, with_stdout; simpl.
  now rewrite <- !app_assoc.
Qed.

(** X13. [display_timer] writes one timer line per poll, each computed from
    the recorder's start time (00:00 as long as the recorder was never
    armed), then one newline; it changes nothing but the terminal. *)
Lemma display_timer_spec polls st :
  display_timer polls st
  = (inr tt,
     with_world
       (with_stdout
          (stdout (world st)
           ++ map (fun now =>
                     Text (timer_line
                             (if nonzero (_start_time (recorder st))
                              then (now - _start_time (recorder st))%Q
                              else 0%Q))) polls
           ++ [Text (EmptyString +:+ Str.nl)])
          (world st)) st).
Proof.
  unfold display_timer. erewrite bind_inr by apply timer_ticks.
  destruct st as [r l w]. unfold io, zoom, print, write, modify; simpl.
  unfold with_world, with_stdout; simpl. now rewrite <- app_assoc.
Qed.

Section LoopFacts.

Variable whisper :
  list string -> gmap Path string -> CompletedProcess * gmap Path string.
Variable wav_bytes : Z -> list float32 -> string.

Lemma main_loop_next args e rest st st' :
  cycle whisper wav_bytes args e st = (inr tt, st') ->
  main_loop whisper wav_bytes args (e :: rest) st
  = main_loop whisper wav_bytes args rest st'.
Proof. intros H. simpl. now rewrite (bind_inr _ _ _ _ _ H). Qed.

(** C4. A turn whose recording holds no sample reports "No audio detected!"
    and is over: the loop goes on to wait for the next start key.  The
    recognizer was not run and no file was created; only the terminal
    changed. *)
Theorem empty_recording_skips_transcription args e rest st :
  key_start e = Enter -> key_stop e = Enter ->
  is_Some (input_device (world st)) ->
  concat (chunks e) = [] ->
  exists st',
    cycle whisper wav_bytes args e st = (inr tt, st')
    /\ main_loop whisper wav_bytes args (e :: rest) st
       = main_loop whisper wav_bytes args rest st'
    /\ whisper_runs (world st') = whisper_runs (world st)
    /\ files (world st') = files (world st)
    /\ dirs (world st') = dirs (world st)
    /\ clipboard (world st') = clipboard (world st)
    /\ stderr (world st') = stderr (world st)
    /\ session_transcripts st' = session_transcripts st
    /\ stdout (world st')
       = stdout (world st) ++ shown_while_recording e
         ++ [Text ("No audio detected!" +:+ Str.nl)].
Proof.
  intros K1 K2 Hdev Hempty.
  assert (Hcycle : cycle whisper wav_bytes args e st
                   = io (print "No audio detected!") (recorded e st)).
  { unfold cycle. erewrite bind_inr by (apply record_spec; assumption).
    now rewrite Hempty. }
  eexists. split; [rewrite Hcycle; reflexivity|].
  split; [apply main_loop_next; rewrite Hcycle; reflexivity|].
  simpl. repeat split. now rewrite <- app_assoc.
Qed.

Lemma write_temp_spec e audio st :
  samplerate (recorder st) <> 0%Z ->
  write_temp wav_bytes e audio st
  = (inr tt,
     with_world
       (with_stdout
          (stdout (world st)
           ++ [Duration (inject_Z (Z.of_nat (length audio))
                         / inject_Z (samplerate (recorder st)))%Q;
               Text ("Transcribing..." +:+ Str.nl)])
          (with_files
             (<[temp_path e := wav_bytes (samplerate (recorder st)) audio]>
                (<[temp_path e := EmptyString]> (files (world st))))
             (world st))) st).
Proof.
  intros Hrate. unfold write_temp. run.
  destruct (Z.eqb_spec (samplerate (recorder st)) 0); [contradiction|].
  destruct st as [r l w]; simpl.
  unfold with_world, with_stdout, with_files; simpl.
  now rewrite <- app_assoc.
Qed.

Lemma recognize_spec args e st text st' :
  io (transcribe whisper (temp_path e) (model args) (lang args)) st
  = (inr text, st') ->
  is_Some (files (world st') !! temp_path e) ->
  recognize whisper args e st
  = (inr text,
     with_world (with_files (delete (temp_path e) (files (world st'))) (world st'))
       st').
Proof.
  intros Ht [content Hfile]. unfold recognize.
  erewrite bind_inr by exact Ht.
  erewrite bind_inr; [reflexivity|].
  apply io_inr. unfold unlink. now rewrite Hfile.
Qed.

Lemma publish_nothing args e st :
  publish args e EmptyString st
  = (inr tt,
     with_world
       (with_stdout
          (stdout (world st)
           ++ [Text ("Transcription failed or no content!" +:+ Str.nl);
               Text (EmptyString +:+ Str.nl)])
          (world st)) st).
Proof.
  unfold publish. simpl. run.
  destruct st as [r l w]; simpl.
  unfold with_world, with_stdout; simpl.
  now rewrite <- app_assoc.
Qed.

(** A turn with a recording in it gets to [publish]: with the text that
    [transcribe] returned, in the state [transcribe] left, less the
    temporary file. *)
Lemma turn_reaches_publish args e st text :
  let audio := concat (chunks e) in
  let st1 := state_after (record e) st in
  let st2 := state_after (write_temp wav_bytes e audio) st1 in
  let call := io (transcribe whisper (temp_path e) (model args) (lang args)) in
  let st3 := state_after call st2 in
  key_start e = Enter -> key_stop e = Enter ->
  is_Some (input_device (world st)) ->
  samplerate (recorder st) <> 0%Z ->
  audio <> [] ->
  result_of call st2 = inr text ->
  is_Some (files (world st3) !! temp_path e) ->
  cycle whisper wav_bytes args e st
  = publish args e text
      (with_world
         (with_files (delete (temp_path e) (files (world st3))) (world st3))
         st3).
Proof.
  intros audio st1 st2 call st3 K1 K2 Hdev Hrate Haudio Hres Htemp.
  assert (H1 : record e st = (inr audio, st1)).
  { unfold st1, state_after. now rewrite record_spec. }
  assert (E1 : st1 = recorded e st).
  { unfold st1, state_after. now rewrite record_spec. }
  assert (Hrate1 : samplerate (recorder st1) <> 0%Z) by now rewrite E1.
  assert (H2 : write_temp wav_bytes e audio st1 = (inr tt, st2)).
  { unfold st2, state_after. now rewrite write_temp_spec. }
  assert (H3 : call st2 = (inr text, st3)).
  { unfold st3, state_after, result_of in *.
    destruct (call st2) as [r s]; simpl in *. now subst r. }
  pose proof (recognize_spec args e st2 _ _ H3 Htemp) as H4.
  assert (Hlen : (length audio =? 0)%nat = false).
  { apply Nat.eqb_neq. destruct audio; [contradiction|simpl; lia]. }
  unfold cycle. erewrite bind_inr by exact H1. rewrite Hlen.
  erewrite bind_inr by exact H2. erewrite bind_inr by exact H4.
  reflexivity.
Qed.

(** A turn in which [transcribe] hands back the empty string. *)
Lemma turn_with_empty_text args e rest st :
  let audio := concat (chunks e) in
  let st1 := state_after (record e) st in
  let st2 := state_after (write_temp wav_bytes e audio) st1 in
  let call := io (transcribe whisper (temp_path e) (model args) (lang args)) in
  let st3 := state_after call st2 in
  key_start e = Enter -> key_stop e = Enter ->
  is_Some (input_device (world st)) ->
  samplerate (recorder st) <> 0%Z ->
  audio <> [] ->
  result_of call st2 = inr EmptyString ->
  is_Some (files (world st3) !! temp_path e) ->
  exists st',
    cycle whisper wav_bytes args e st = (inr tt, st')
    /\ main_loop whisper wav_bytes args (e :: rest) st
       = main_loop whisper wav_bytes args rest st'
    /\ clipboard (world st') = clipboard (world st)
    /\ session_transcripts st' = session_transcripts st
    /\ files (world st') = delete (temp_path e) (files (world st3))
    /\ dirs (world st') = dirs (world st)
    /\ stderr (world st') = stderr (world st3)
    /\ stderr (world st2) = stderr (world st)
    /\ (forall fp, fp <> temp_path e ->
          files (world st3) !! fp = files (world st2) !! fp ->
          files (world st') !! fp = files (world st) !! fp)
    /\ stdout (world st')
       = stdout (world st3)
         ++ [Text ("Transcription failed or no content!" +:+ Str.nl);
             Text (EmptyString +:+ Str.nl)].
Proof.
  intros audio st1 st2 call st3 K1 K2 Hdev Hrate Haudio Hres Htemp.
  assert (E1 : st1 = recorded e st).
  { unfold st1, state_after. now rewrite record_spec. }
  assert (Hrate1 : samplerate (recorder st1) <> 0%Z) by now rewrite E1.
  pose proof (turn_reaches_publish args e st EmptyString K1 K2 Hdev Hrate
                Haudio Hres Htemp) as Hcycle.
  cbn zeta in Hcycle. fold audio st1 st2 call st3 in Hcycle.
  rewrite publish_nothing in Hcycle.
  eexists. split; [exact Hcycle|]. split; [now apply main_loop_next|].
  assert (E3 : st3 = with_world
                       (snd (transcribe whisper (temp_path e) (model args)
                               (lang args) (world st2))) st2).
  { unfold st3, state_after, call. now rewrite io_spec. }
  assert (E2 : st2 = snd (write_temp wav_bytes e audio st1)) by reflexivity.
  rewrite write_temp_spec in E2 by exact Hrate1.
  destruct (transcribe_frame whisper (world st2) (temp_path e) (model args)
              (lang args)) as (Fclip & Fout & Fdirs).
  assert (Hfiles2 : forall fp, fp <> temp_path e ->
            files (world st2) !! fp = files (world st) !! fp).
  { intros fp Hfp. rewrite E2, E1. simpl.
    now rewrite !lookup_insert_ne by congruence. }
  simpl. repeat split.
  - rewrite E3. simpl. rewrite Fclip, E2, E1. reflexivity.
  - rewrite E3. simpl. rewrite E2, E1. reflexivity.
  - rewrite E3. simpl. rewrite Fdirs, E2, E1. reflexivity.
  - rewrite E2, E1. reflexivity.
  - intros fp Hfp Hkept.
    rewrite lookup_delete_ne by congruence.
    rewrite Hkept. now apply Hfiles2.
Qed.

(** C5. When [transcribe] hands back the empty string, the turn reports
    "Transcription failed or no content!" and is over, and the loop goes on
    to wait for the next start key.  Clipboard and transcript list are as
    they were before the turn, and after [transcribe] returned the turn
    wrote to no file: it only removed its temporary one.  So every file the
    recognizer run left alone, a log file among them, is as before the
    turn. *)
Theorem failed_transcription_changes_nothing args e rest st :
  let audio := concat (chunks e) in
  let st1 := state_after (record e) st in
  let st2 := state_after (write_temp wav_bytes e audio) st1 in
  let call := io (transcribe whisper (temp_path e) (model args) (lang args)) in
  let st3 := state_after call st2 in
  key_start e = Enter -> key_stop e = Enter ->
  is_Some (input_device (world st)) ->
  samplerate (recorder st) <> 0%Z ->
  audio <> [] ->
  result_of call st2 = inr EmptyString ->
  is_Some (files (world st3) !! temp_path e) ->
  exists st',
    cycle whisper wav_bytes args e st = (inr tt, st')
    /\ main_loop whisper wav_bytes args (e :: rest) st
       = main_loop whisper wav_bytes args rest st'
    /\ clipboard (world st') = clipboard (world st)
    /\ session_transcripts st' = session_transcripts st
    /\ files (world st') = delete (temp_path e) (files (world st3))
    /\ dirs (world st') = dirs (world st)
    /\ (forall fp, fp <> temp_path e ->
          files (world st3) !! fp = files (world st2) !! fp ->
          files (world st') !! fp = files (world st) !! fp)
    /\ stdout (world st')
       = stdout (world st3)
         ++ [Text ("Transcription failed or no content!" +:+ Str.nl);
             Text (EmptyString +:+ Str.nl)].
Proof.
  intros audio st1 st2 call st3 K1 K2 Hdev Hrate Haudio Hres Htemp.
  destruct (turn_with_empty_text args e rest st K1 K2 Hdev Hrate Haudio Hres Htemp)
    as (st' & H1 & H2 & H3 & H4 & H5 & H6 & _ & _ & H7 & H8).
  exists st'. repeat split; assumption.
Qed.

(** C6. When the recognizer exits with a status other than zero,
    [transcribe] returns the empty string, normally (nothing is raised), and
    what the recognizer wrote on its standard error goes to the program's
    standard error, after "Whisper error: ". *)
Theorem nonzero_exit_gives_empty_text_and_diagnostic w audio_path model lang :
  let argv := whisper_argv audio_path model lang in
  let result := whisper_result whisper argv w in
  let call := transcribe whisper audio_path model lang in
  returncode result <> 0%Z ->
  result_of call w = inr EmptyString
  /\ stderr (state_after call w)
     = stderr w ++ [("Whisper error: " +:+ cp_stderr result) +:+ Str.nl]
  /\ stdout (state_after call w) = stdout w
  /\ clipboard (state_after call w) = clipboard w
  /\ files (state_after call w) = snd (whisper argv (files w)).
Proof.
  intros argv result call Hrc. unfold call, result_of, state_after.
  rewrite transcribe_failed by exact Hrc. repeat split.
Qed.

(** The turn in which that happens ends normally, and the loop goes on, if
    the recognizer left the temporary audio file in place. *)
Lemma turn_with_failed_recognizer args e rest st :
  let audio := concat (chunks e) in
  let st2 := state_after (write_temp wav_bytes e audio)
               (state_after (record e) st) in
  let argv := whisper_argv (temp_path e) (model args) (lang args) in
  let result := whisper_result whisper argv (world st2) in
  key_start e = Enter -> key_stop e = Enter ->
  is_Some (input_device (world st)) ->
  samplerate (recorder st) <> 0%Z ->
  audio <> [] ->
  returncode result <> 0%Z ->
  is_Some (snd (whisper argv (files (world st2))) !! temp_path e) ->
  exists st',
    cycle whisper wav_bytes args e st = (inr tt, st')
    /\ main_loop whisper wav_bytes args (e :: rest) st
       = main_loop whisper wav_bytes args rest st'
    /\ stderr (world st')
       = stderr (world st) ++ [("Whisper error: " +:+ cp_stderr result) +:+ Str.nl]
    /\ clipboard (world st') = clipboard (world st)
    /\ session_transcripts st' = session_transcripts st.
Proof.
  intros audio st2 argv result K1 K2 Hdev Hrate Haudio Hrc Htemp.
  pose proof (transcribe_failed whisper (world st2) (temp_path e) (model args)
                (lang args) Hrc) as Hcall.
  destruct (turn_with_empty_text args e rest st K1 K2 Hdev Hrate Haudio)
    as (st' & H1 & H2 & H3 & H4 & _ & _ & H5 & H6 & _).
  - change (result_of
              (io (transcribe whisper (temp_path e) (model args) (lang args)))
              st2 = inr EmptyString).
    unfold result_of. now rewrite io_spec, Hcall.
  - change (is_Some
              (files (world (state_after
                               (io (transcribe whisper (temp_path e)
                                      (model args) (lang args))) st2))
               !! temp_path e)).
    unfold state_after. rewrite io_spec, Hcall. exact Htemp.
  - exists st'. repeat split; try assumption.
    rewrite H5.
    change (stderr (world (state_after
                             (io (transcribe whisper (temp_path e)
                                    (model args) (lang args))) st2))
            = stderr (world st)
              ++ [("Whisper error: " +:+ cp_stderr result) +:+ Str.nl]).
    unfold state_after. rewrite io_spec, Hcall. simpl.
    change (stderr (world st2) = stderr (world st)) in H6. now rewrite H6.
Qed.

(** C7, amended. When the recognizer exits with status zero and nothing is
    at the text path, [transcribe] returns the empty string and says
    nothing: standard error and the terminal are as the call found them.
    What the operator reads is the line that [main] prints for any empty
    text, "Transcription failed or no content!". *)
Theorem missing_artifact_gives_empty_text_silently
    w audio_path model lang txt_path :
  let argv := whisper_argv audio_path model lang in
  let call := transcribe whisper audio_path model lang in
  returncode (whisper_result whisper argv w) = 0%Z ->
  PathLib.with_suffix audio_path ".txt" = inr txt_path ->
  present txt_path (after_whisper whisper argv w) = false ->
  result_of call w = inr EmptyString
  /\ stderr (state_after call w) = stderr w
  /\ stdout (state_after call w) = stdout w
  /\ forall args e st,
       stdout (world (state_after (publish args e EmptyString) st))
       = stdout (world st)
         ++ [Text ("Transcription failed or no content!" +:+ Str.nl);
             Text (EmptyString +:+ Str.nl)].
Proof.
  intros argv call Hrc Htxt Habsent. unfold call, result_of, state_after.
  rewrite (transcribe_no_artifact whisper _ _ _ _ _ Hrc Htxt Habsent).
  repeat split. intros args e st. now rewrite publish_nothing.
Qed.

Lemma io_inv {A} (m : M World A) st r st' :
  io m st = (r, st') ->
  m (world st) = (r, world st') /\ st' = with_world (world st') st.
Proof.
  rewrite io_spec. intros [= <- <-]. simpl.
  split; [now destruct (m (world st))|now destruct st].
Qed.

Lemma recognize_state args e st text st1 :
  io (transcribe whisper (temp_path e) (model args) (lang args)) st
  = (inr text, st1) ->
  state_after (recognize whisper args e) st
  = with_world (snd (unlink (temp_path e) (world st1))) st1.
Proof.
  intros Hcall. unfold state_after, recognize.
  erewrite bind_inr by exact Hcall.
  unfold bind. rewrite io_spec.
  now destruct (unlink (temp_path e) (world st1)) as [[err|[]] w'].
Qed.

Lemma unlink_removes p w : files (snd (unlink p w)) !! p = None.
Proof.
  unfold unlink. destruct (files w !! p) eqn:E; simpl; [|exact E].
  apply lookup_delete_eq.
Qed.

Lemma unlink_keeps_absent p q w :
  files w !! q = None -> files (snd (unlink p w)) !! q = None.
Proof.
  intros H. unfold unlink. destruct (files w !! p); simpl; [|exact H].
  apply lookup_delete_None. now right.
Qed.

(** C1, amended. [transcribe] itself never removes the audio file it is
    given: when it returns, that file is as the recognizer left it.  [main]
    removes it right after the call, so once [recognize] is done no file is
    at the temporary path.  When the recognizer exited with status zero, no
    file is at the text path either: [transcribe] has removed it, if it was
    there. *)
Theorem temporary_files_after_recognize args e st text st1 :
  let argv := whisper_argv (temp_path e) (model args) (lang args) in
  let st' := state_after (recognize whisper args e) st in
  io (transcribe whisper (temp_path e) (model args) (lang args)) st
  = (inr text, st1) ->
  (PathLib.with_suffix (temp_path e) ".txt" <> inr (temp_path e) ->
   files (world st1) !! temp_path e
   = snd (whisper argv (files (world st))) !! temp_path e)
  /\ files (world st') !! temp_path e = None
  /\ (returncode (whisper_result whisper argv (world st)) = 0%Z ->
      forall txt_path,
        PathLib.with_suffix (temp_path e) ".txt" = inr txt_path ->
        files (world st') !! txt_path = None).
Proof.
  intros argv st' Hcall.
  destruct (io_inv _ _ _ _ Hcall) as [Hw _].
  assert (Hst' : st' = with_world (snd (unlink (temp_path e) (world st1))) st1)
    by (apply recognize_state with (text := text); exact Hcall).
  pose proof (transcribe_returns whisper _ _ _ _ _ _ Hw) as Hways.
  fold argv in Hways. cbn zeta in Hways.
  split; [|split].
  - intros Hdistinct.
    destruct Hways as [(_ & _ & Hf)|[(_ & _ & -> & _)|(_ & txt & c & Htxt & _ & _ & Hf)]].
    + now rewrite Hf.
    + reflexivity.
    + rewrite Hf. rewrite lookup_delete_ne; [reflexivity|].
      intros ->. now apply Hdistinct.
  - rewrite Hst'. apply unlink_removes.
  - intros Hrc txt_path Htxt. rewrite Hst'. simpl.
    apply unlink_keeps_absent.
    destruct Hways as [(Hne & _)|[(_ & _ & _ & txt & Htxt' & Hf)|(_ & txt & c & Htxt' & _ & _ & Hf)]].
    + contradiction.
    + rewrite Htxt in Htxt'. now injection Htxt' as <-.
    + rewrite Htxt in Htxt'. injection Htxt' as <-.
      rewrite Hf. apply lookup_delete_eq.
Qed.

End LoopFacts.

(** ** Clipboard and log *)

Lemma append_assoc (a b c : string) : (a +:+ b) +:+ c = a +:+ b +:+ c.
Proof.
  induction a as [|x a IH]; [reflexivity|].
  exact (f_equal (String x) IH).
Qed.

Lemma publish_spec args e text st :
  Str.nonempty text = true ->
  publish args e text st = (inr tt, published args e text st).
Proof.
  intros Htext. unfold publish, published. rewrite Htext.
  unfold copy_to_clipboard, pbcopy, save_transcription, logged, with_parents,
    log_record, path_exists, mkdir_parents, append_text, print, write.
  destruct st as [r l w]. run. simpl.
  destruct (append args), (output args) as [fp|]; simpl;
    try destruct (present _ _); simpl;
    unfold with_world, with_stdout, with_files, with_dirs, with_clipboard,
      with_session_transcripts; simpl;
    rewrite <- ?app_assoc; reflexivity.
Qed.

Lemma append_nil_r (a : string) : a +:+ EmptyString = a.
Proof.
  induction a as [|x a IH]; [reflexivity|].
  exact (f_equal (String x) IH).
Qed.

Lemma publish_all_spec args turns : forall st,
  Forall (fun turn => Str.nonempty (snd turn) = true) turns ->
  publish_all args turns st
  = (inr tt,
     foldl (fun st turn => published args (fst turn) (snd turn) st) st turns).
Proof.
  induction turns as [|[e text] turns IH]; intros st Hall; [reflexivity|].
  apply Forall_cons in Hall as [Htext Hall]. unfold publish_all in *. simpl.
  erewrite bind_inr by (apply publish_spec; exact Htext).
  now apply IH.
Qed.

Lemma published_all_transcripts args turns : forall st,
  session_transcripts
    (foldl (fun st turn => published args (fst turn) (snd turn) st) st turns)
  = if append args then session_transcripts st ++ map snd turns
    else session_transcripts st.
Proof.
  induction turns as [|[e text] turns IH]; intros st; simpl.
  - destruct (append args); [now rewrite app_nil_r|reflexivity].
  - rewrite IH. simpl. destruct (append args); [|reflexivity].
    now rewrite <- app_assoc.
Qed.

Lemma foldl_snoc {A B} (f : A -> B -> A) a l b :
  foldl f a (l ++ [b]) = f (foldl f a l) b.
Proof. revert a. induction l as [|x l IH]; intros a; simpl; auto. Qed.

(** C2. After any number of turns that each produced a text, the last of
    them [text]: in append mode the transcript list has grown by all these
    texts in order and the clipboard holds the whole list joined by
    newlines; otherwise the list is untouched and the clipboard holds
    [text] alone. *)
Theorem clipboard_follows_append_mode args turns e text st :
  Forall (fun turn => Str.nonempty (snd turn) = true) turns ->
  Str.nonempty text = true ->
  let run := publish_all args (turns ++ [(e, text)]) in
  let st' := state_after run st in
  result_of run st = inr tt
  /\ if append args
     then session_transcripts st'
          = session_transcripts st ++ map snd turns ++ [text]
          /\ clipboard (world st')
             = Str.join Str.nl (session_transcripts st ++ map snd turns ++ [text])
     else session_transcripts st' = session_transcripts st
          /\ clipboard (world st') = text.
Proof.
  intros Hall Htext run st'.
  assert (Hall' : Forall (fun turn => Str.nonempty (snd turn) = true)
                    (turns ++ [(e, text)])).
  { apply Forall_app. split; [exact Hall|]. now constructor. }
  unfold st', run, result_of, state_after.
  rewrite publish_all_spec by exact Hall'. simpl.
  split; [reflexivity|].
  rewrite foldl_snoc. simpl.
  rewrite published_all_transcripts.
  destruct (append args); [|split; reflexivity].
  rewrite <- app_assoc. split; reflexivity.
Qed.

Lemma clipboard_follows_append_mode_witness :
  clipboard
    (world (state_after
              (publish_all Samples.args_append
                 [(Samples.env0, "hello"); (Samples.env0, "world")])
              Samples.state0))
  = "hello" +:+ Str.nl +:+ "world"
  /\ clipboard
       (world (state_after
                 (publish_all Samples.args_replace
                    [(Samples.env0, "hello"); (Samples.env0, "world")])
                 Samples.state0))
     = "world".
Proof.
  assert (Hall : Forall (fun turn : CycleEnv * string =>
                           Str.nonempty (snd turn) = true)
                   [(Samples.env0, "hello")])
    by (repeat constructor).
  split.
  - exact (proj2 (proj2 (clipboard_follows_append_mode Samples.args_append
                           [(Samples.env0, "hello")] Samples.env0 "world"
                           Samples.state0 Hall eq_refl))).
  - exact (proj2 (proj2 (clipboard_follows_append_mode Samples.args_replace
                           [(Samples.env0, "hello")] Samples.env0 "world"
                           Samples.state0 Hall eq_refl))).
Defined.

Lemma lineage_self (p : Path) : p <> [] -> p ∈ PathLib.lineage p.
Proof.
  intros Hp. unfold PathLib.lineage.
  apply list_elem_of_fmap. exists (length p). split.
  - now rewrite firstn_all.
  - apply list_elem_of_In, in_seq. destruct p; [contradiction|simpl; lia].
Qed.

Lemma present_root w : present [] w = true.
Proof. reflexivity. Qed.

Lemma present_dir p w : p ∈ dirs w -> present p w = true.
Proof.
  intros H. unfold present.
  rewrite (bool_decide_true (p ∈ dirs w)) by exact H.
  apply orb_true_r.
Qed.

(** Once a record is written, the log file's parent directory is there. *)
Lemma parent_present_after_publish args e text st fp :
  output args = Some fp ->
  present (PathLib.parent fp) (world (published args e text st)) = true.
Proof.
  intros Hout. unfold published. rewrite Hout. unfold with_parents.
  destruct (present (PathLib.parent fp) (world st)) eqn:Hp.
  - unfold present in *. simpl.
    apply orb_true_iff in Hp as [Hp|Hp];
      [apply orb_true_iff in Hp as [Hp|Hp]|].
    + now rewrite Hp.
    + apply bool_decide_eq_true in Hp as [c Hc].
      unfold logged.
      destruct (decide (fp = PathLib.parent fp)) as [<-|Hne].
      * rewrite lookup_insert_eq.
        rewrite (bool_decide_true (is_Some (Some _))) by eauto.
        apply orb_true_iff. left. apply orb_true_r.
      * rewrite lookup_insert_ne by exact Hne. rewrite Hc.
        rewrite (bool_decide_true (is_Some (Some _))) by eauto.
        apply orb_true_iff. left. apply orb_true_r.
    + now rewrite Hp, orb_true_r.
  - apply present_dir. simpl.
    apply elem_of_union_r, elem_of_list_to_set, lineage_self.
    intros Hnil. now rewrite Hnil in Hp.
Qed.

Lemma with_parents_present fp w :
  present (PathLib.parent fp) w = true -> with_parents fp w = dirs w.
Proof. intros H. unfold with_parents. now rewrite H. Qed.

Lemma published_all_files args fp turns : forall st turn,
  output args = Some fp ->
  let st' := foldl (fun st turn => published args (fst turn) (snd turn) st)
               st (turn :: turns) in
  files (world st')
  = <[fp := default EmptyString (files (world st) !! fp)
            +:+ log_records (turn :: turns)]> (files (world st))
  /\ dirs (world st') = with_parents fp (world st).
Proof.
  induction turns as [|next turns IH]; intros st [e text] Hout; simpl.
  - unfold published. rewrite Hout. simpl. unfold logged.
    now rewrite append_nil_r.
  - destruct (IH (published args e text st) next Hout) as [Hfiles Hdirs].
    simpl in Hfiles, Hdirs. rewrite Hfiles, Hdirs. clear Hfiles Hdirs IH.
    split.
    + rewrite Hout. unfold logged.
      rewrite lookup_insert_eq, insert_insert_eq. simpl.
      now rewrite append_assoc.
    + rewrite with_parents_present
        by (apply parent_present_after_publish; exact Hout).
      unfold published. now rewrite Hout.
Qed.

(** C10. With a log path configured, turns that each produced a text leave
    the log file with its former content followed by one record
    [[<timestamp>]\n<text>\n\n] per turn, in the order of the turns; no
    other file changes.  If the log file's parent directory was absent, it
    and its missing ancestors are directories afterwards (they are made
    before the file is opened); in any case the parent is there
    afterwards.  In particular one turn appends exactly one record, and two
    turns append two. *)
Theorem log_gets_one_record_per_transcript args fp turn turns st :
  output args = Some fp ->
  Forall (fun turn => Str.nonempty (snd turn) = true) (turn :: turns) ->
  let run := publish_all args (turn :: turns) in
  let st' := state_after run st in
  result_of run st = inr tt
  /\ files (world st')
     = <[fp := default EmptyString (files (world st) !! fp)
               +:+ log_records (turn :: turns)]> (files (world st))
  /\ dirs (world st') = with_parents fp (world st)
  /\ present (PathLib.parent fp) (world st') = true.
Proof.
  intros Hout Hall run st'.
  unfold st', run, result_of, state_after.
  rewrite publish_all_spec by exact Hall.
  destruct (published_all_files args fp turns st turn Hout) as [Hfiles Hdirs].
  cbn [fst snd]. repeat split; [exact Hfiles|exact Hdirs|].
  destruct (@exists_last _ (turn :: turns)) as (front & [e text] & Hsplit);
    [discriminate|].
  rewrite Hsplit, foldl_snoc.
  now apply parent_present_after_publish.
Qed.

Lemma log_gets_one_record_per_transcript_witness :
  let st' :=
    state_after
      (publish_all Samples.args_replace
         [(Samples.env0, "hello"); (Samples.env1, "world")])
      Samples.state0 in
  files (world st') !! Samples.log0
  = Some ("[2024-03-09 12:00:05]" +:+ Str.nl +:+ "hello" +:+ Str.nl +:+ Str.nl
          +:+ "[2024-03-09 12:01:10]" +:+ Str.nl +:+ "world" +:+ Str.nl
          +:+ Str.nl)
  /\ dirs (world st') = {[ ["home"]; ["home"; "notes"] ]}.
Proof.
  assert (Hall : Forall (fun turn : CycleEnv * string =>
                           Str.nonempty (snd turn) = true)
                   [(Samples.env0, "hello"); (Samples.env1, "world")])
    by (repeat constructor).
  destruct (log_gets_one_record_per_transcript Samples.args_replace
              Samples.log0 (Samples.env0, "hello") [(Samples.env1, "world")]
              Samples.state0 eq_refl Hall) as (_ & Hfiles & Hdirs & _).
  split.
  - rewrite Hfiles, lookup_insert_eq. vm_compute. reflexivity.
  - rewrite Hdirs. vm_compute. reflexivity.
Defined.

(** ** Runs on sample data *)

Lemma empty_recording_skips_transcription_witness :
  exists st',
    cycle Samples.whisper_hello Samples.wav0 Samples.args0 Samples.env_silent
      Samples.state0 = (inr tt, st')
    /\ whisper_runs (world st') = []
    /\ files (world st') = ∅.
Proof.
  assert (Hdev : is_Some (input_device (world Samples.state0)))
    by (eexists; reflexivity).
  destruct (empty_recording_skips_transcription Samples.whisper_hello
              Samples.wav0 Samples.args0 Samples.env_silent [] Samples.state0
              eq_refl eq_refl Hdev eq_refl)
    as (st' & Hcycle & _ & Hruns & Hfiles & _).
  exists st'. split; [exact Hcycle|]. split; [exact Hruns|exact Hfiles].
Defined.

Lemma failed_transcription_changes_nothing_witness :
  exists st',
    cycle Samples.whisper_fails Samples.wav0 Samples.args_append Samples.env0
      Samples.state0 = (inr tt, st')
    /\ clipboard (world st') = EmptyString
    /\ session_transcripts st' = []
    /\ files (world st') !! Samples.log0 = None.
Proof.
  assert (Hdev : is_Some (input_device (world Samples.state0)))
    by (eexists; reflexivity).
  assert (Hrate : samplerate (recorder Samples.state0) <> 0%Z) by discriminate.
  assert (Haudio : concat (chunks Samples.env0) <> []) by discriminate.
  destruct (failed_transcription_changes_nothing Samples.whisper_fails
              Samples.wav0 Samples.args_append Samples.env0 [] Samples.state0
              eq_refl eq_refl Hdev Hrate Haudio)
    as (st' & Hcycle & _ & Hclip & Hlist & _ & _ & Hkept & _).
  - vm_compute. reflexivity.
  - eexists. vm_compute. reflexivity.
  - exists st'. split; [exact Hcycle|]. split; [exact Hclip|].
    split; [exact Hlist|].
    rewrite (Hkept Samples.log0); [reflexivity|discriminate|].
    vm_compute. reflexivity.
Defined.

Lemma nonzero_exit_gives_empty_text_and_diagnostic_witness :
  let call := transcribe Samples.whisper_fails Samples.temp0 "base" "en" in
  result_of call Samples.world_staged = inr EmptyString
  /\ stderr (state_after call Samples.world_staged)
     = ["Whisper error: x" +:+ Str.nl].
Proof.
  assert (Hrc : returncode
                  (whisper_result Samples.whisper_fails
                     (whisper_argv Samples.temp0 "base" "en")
                     Samples.world_staged) <> 0%Z) by discriminate.
  destruct (nonzero_exit_gives_empty_text_and_diagnostic Samples.whisper_fails
              Samples.world_staged Samples.temp0 "base" "en" Hrc)
    as (Hres & Herr & _).
  split; [exact Hres|exact Herr].
Defined.

(** C7, as stated, fails: the recognizer exits with status 0, nothing is at
    the text path, and [transcribe] returns the empty string with standard
    error and the terminal both still empty. *)
Lemma missing_artifact_leaves_no_diagnostic :
  let argv := whisper_argv Samples.temp0 "base" "en" in
  let call := transcribe Samples.whisper_silent Samples.temp0 "base" "en" in
  returncode (whisper_result Samples.whisper_silent argv Samples.world_staged)
  = 0%Z
  /\ PathLib.with_suffix Samples.temp0 ".txt" = inr Samples.text0
  /\ present Samples.text0 (state_after call Samples.world_staged) = false
  /\ result_of call Samples.world_staged = inr EmptyString
  /\ stderr (state_after call Samples.world_staged) = []
  /\ stdout (state_after call Samples.world_staged) = [].
Proof. vm_compute. repeat split. Qed.

Lemma missing_artifact_gives_empty_text_silently_witness :
  let call := transcribe Samples.whisper_silent Samples.temp0 "base" "en" in
  result_of call Samples.world_staged = inr EmptyString
  /\ stderr (state_after call Samples.world_staged) = []
  /\ stdout (state_after call Samples.world_staged) = [].
Proof.
  destruct (missing_artifact_gives_empty_text_silently Samples.whisper_silent
              Samples.world_staged Samples.temp0 "base" "en" Samples.text0)
    as (Hres & Herr & Hout & _).
  - reflexivity.
  - vm_compute. reflexivity.
  - vm_compute. reflexivity.
  - split; [exact Hres|]. split; [exact Herr|exact Hout].
Defined.

(** C1, as stated, fails in two ways.  When [transcribe] returns after a
    successful run, the audio file it was given is still on the disk.  And
    when the recognizer writes its text file and then exits with status 1,
    that text file is still there after the whole turn, which ends
    normally. *)
Lemma temporary_files_can_outlive_transcribe :
  let call := transcribe Samples.whisper_hello Samples.temp0 "base" "en" in
  let turn :=
    cycle Samples.whisper_fails_late Samples.wav0 Samples.args0 Samples.env0 in
  result_of call Samples.world_staged = inr "hello"
  /\ files (state_after call Samples.world_staged) !! Samples.temp0
     = Some "RIFF"
  /\ result_of turn Samples.state0 = inr tt
  /\ files (world (state_after turn Samples.state0)) !! Samples.text0
     = Some "hel".
Proof. vm_compute. repeat split. Qed.

Lemma temporary_files_after_recognize_witness :
  let st' :=
    state_after (recognize Samples.whisper_hello Samples.args0 Samples.env0)
      Samples.state_staged in
  files (world st') !! Samples.temp0 = None
  /\ files (world st') !! Samples.text0 = None.
Proof.
  destruct (temporary_files_after_recognize Samples.whisper_hello
              Samples.args0 Samples.env0 Samples.state_staged "hello"
              (state_after
                 (io (transcribe Samples.whisper_hello Samples.temp0 "base" "en"))
                 Samples.state_staged))
    as (_ & Htemp & Htext).
  - vm_compute. reflexivity.
  - split; [exact Htemp|].
    apply Htext; vm_compute; reflexivity.
Defined.

(** A session cut by Ctrl-C at the first prompt: [main] prints its banner,
    the prompt and the farewell, and returns normally. *)
Lemma interrupted_session_says_goodbye :
  let session := [Build_CycleEnv CtrlC 0 [] [] Enter Samples.temp0 0 0 Samples.noon] in
  let run := main Samples.whisper_hello Samples.wav0 Samples.args0 session in
  result_of run Samples.world0 = inr tt
  /\ last (stdout (state_after run Samples.world0))
     = Some (Text ((Str.nl +:+ "Goodbye!") +:+ Str.nl))
  /\ files (state_after run Samples.world0) = ∅.
Proof. vm_compute. repeat split. Qed.

(** * Further properties *)

(** ** Frames *)

Section Frames.
Context {S X : Type} (f : S -> X).

Lemma preserves_ret {A} (a : A) : preserves f (ret a).
Proof. now intros s. Qed.

Lemma preserves_raise {A} e : preserves f (@raise S A e).
Proof. now intros s. Qed.

Lemma preserves_gets {A} (g : S -> A) : preserves f (gets g).
Proof. now intros s. Qed.

Lemma preserves_modify (g : S -> S) :
  (forall s, f (g s) = f s) -> preserves f (modify g).
Proof. intros H s. apply H. Qed.

Lemma preserves_bind {A B} (m : M S A) (k : A -> M S B) :
  preserves f m -> (forall a, preserves f (k a)) -> preserves f (bind m k).
Proof.
  intros Hm Hk s. unfold bind. specialize (Hm s).
  destruct (m s) as [[e|a] s1]; simpl in *; [exact Hm|].
  now rewrite Hk.
Qed.

Lemma preserves_for_each {A} (xs : list A) (body : A -> M S unit) :
  (forall x, preserves f (body x)) -> preserves f (for_each xs body).
Proof.
  intros Hb. induction xs as [|x xs IH]; simpl.
  - apply preserves_ret.
  - apply preserves_bind; [apply Hb|intros _; exact IH].
Qed.

Lemma preserves_lift_result {A} (r : exn + A) : preserves f (lift_result r).
Proof. destruct r; [apply preserves_raise|apply preserves_ret]. Qed.

Lemma preserves_try_except {A} (m : M S A) e (h : M S A) :
  preserves f m -> preserves f h -> preserves f (try_except m e h).
Proof.
  intros Hm Hh s. unfold try_except. specialize (Hm s).
  destruct (m s) as [[e'|a] s1]; simpl in *; [|exact Hm].
  destruct (decide (e' = e)); simpl; [|exact Hm]. now rewrite Hh.
Qed.

End Frames.

Lemma preserves_io {A X} (g : World -> X) (m : M World A) :
  preserves g m -> preserves (fun st => g (world st)) (io m).
Proof. intros H st. rewrite io_spec. simpl. apply H. Qed.

Lemma preserves_io_locals {A X} (h : State -> X) (m : M World A) :
  (forall w st, h (with_world w st) = h st) -> preserves h (io m).
Proof. intros H st. rewrite io_spec. simpl. apply H. Qed.

Lemma preserves_self_set {X} (h : State -> X) g :
  (forall r st, h (with_recorder r st) = h st) -> preserves h (self_set g).
Proof. intros H st. apply H. Qed.

Lemma preserves_io_any {A X} (h : State -> X) (m : M World A) :
  (forall st, h (with_world (snd (m (world st))) st) = h st) ->
  preserves h (io m).
Proof. intros H st. rewrite io_spec. simpl. apply H. Qed.

(** Closing a frame goal on a primitive by evaluation. *)
Ltac frame_eval :=
  let w := fresh "w" in
  intros w;
  cbv beta iota zeta delta
    [print print_end write print_stderr input path_exists unlink read_text
     write_file append_text mkdir_parents pbcopy copy_to_clipboard
     save_transcription modify gets ret raise bind snd fst];
  repeat match goal with
         | |- context [match ?x with _ => _ end] =>
             lazymatch x with
             | context [match _ with _ => _ end] => fail
             | _ => destruct x; cbv beta iota zeta delta [snd fst]
             end
         end;
  reflexivity.

Ltac frame_step :=
  first
    [ apply preserves_ret | apply preserves_raise | apply preserves_gets
    | apply preserves_lift_result
    | apply preserves_bind; [|intros ?]
    | apply preserves_for_each; intros ?
    | apply preserves_io_locals; reflexivity
    | apply preserves_self_set; reflexivity
    | apply preserves_modify; reflexivity
    | match goal with
      | |- preserves (fun st => ?g (world st)) (io _) => apply (preserves_io g)
      | |- preserves _ (if ?b then _ else _) => destruct b
      | |- preserves _ (match ?x with _ => _ end) => destruct x
      end
    | frame_eval
    | apply preserves_io_any; frame_eval ].

Ltac frame := repeat frame_step.

Lemma record_keeps_runs e :
  preserves (fun st => whisper_runs (world st)) (record e).
Proof.
  unfold record, RecorderMethods.start, RecorderMethods.stop,
    RecorderMethods._callback, RecorderMethods.InputStream,
    RecorderMethods.the_stream, timer_tick, RecorderMethods.elapsed.
  frame.
Qed.

Lemma bind_inr_inv {S A B} (m : M S A) (k : A -> M S B) s b s' :
  bind m k s = (inr b, s') ->
  exists a s1, m s = (inr a, s1) /\ k a s1 = (inr b, s').
Proof.
  unfold bind. destruct (m s) as [[e|a] s1]; [discriminate|]. eauto.
Qed.

Lemma bind_raises {S A B} (m : M S A) (k : A -> M S B) s e :
  fst (m s) = inl e -> fst (bind m k s) = inl e.
Proof. unfold bind. destruct (m s) as [[e'|a] s1]; simpl; congruence. Qed.

(** The recording phase returns only when both keys were Enter and a
    stream could be opened. *)
Lemma record_inv e st audio st1 :
  record e st = (inr audio, st1) ->
  key_start e = Enter /\ key_stop e = Enter
  /\ is_Some (input_device (world st)).
Proof.
  intros H. apply (f_equal fst) in H. simpl in H.
  destruct (key_start e) eqn:K1;
    [|unfold record in H; rewrite K1 in H; discriminate H
     |unfold record in H; rewrite K1 in H; discriminate H].
  destruct (input_device (world st)) as [rate|] eqn:Hdev.
  2:{ exfalso. unfold record in H. rewrite K1 in H.
      erewrite bind_inr in H by reflexivity.
      rewrite (bind_raises _ _ _ PortAudioError) in H; [discriminate|].
      apply RecorderFacts.start_no_device. exact Hdev. }
  destruct (key_stop e) eqn:K2; [eauto| |].
  all: exfalso; unfold record in H; rewrite K1, K2 in H;
    erewrite bind_inr in H by reflexivity;
    erewrite bind_inr in H
      by (apply RecorderFacts.start_spec; simpl; rewrite Hdev; eauto);
    erewrite bind_inr in H by apply timer_ticks;
    erewrite bind_inr in H
      by (apply RecorderFacts.callbacks_armed; reflexivity);
    discriminate H.
Qed.

Section TurnFacts.

Variable whisper :
  list string -> gmap Path string -> CompletedProcess * gmap Path string.
Variable wav_bytes : Z -> list float32 -> string.

Lemma after_record_keeps_recorder args e audio :
  preserves recorder
    (if (length audio =? 0)%nat then io (print "No audio detected!")
     else (write_temp wav_bytes e audio ;;
           text <- recognize whisper args e ;;
           publish args e text)).
Proof.
  unfold write_temp, recognize, publish. frame.
Qed.

(** A turn that ends normally has been through [Recorder.stop], and
    nothing after it touches the recorder. *)
Lemma turn_ends_disarmed args e st st' :
  cycle whisper wav_bytes args e st = (inr tt, st') ->
  recording (recorder st') = false
  /\ stream (recorder st') = Some Closed
  /\ audio_data (recorder st') = chunks e
  /\ _start_time (recorder st') = arm_time e.
Proof.
  intros H. unfold cycle in H.
  apply bind_inr_inv in H as (audio & st1 & Hrec & Hrest).
  destruct (record_inv _ _ _ _ Hrec) as (K1 & K2 & Hdev).
  rewrite record_spec in Hrec by assumption.
  injection Hrec as <- <-.
  pose proof (after_record_keeps_recorder args e (concat (chunks e))
                (recorded e st)) as Hframe.
  rewrite Hrest in Hframe. simpl in Hframe. rewrite Hframe.
  repeat split.
Qed.

(** X5. In the loop of [main] the recorder is disarmed at the top of every
    iteration: after any number of turns that ended normally, [recording]
    is false again.  So [main] never calls [start] on an armed
    recorder. *)
Theorem recorder_is_disarmed_between_turns args session : forall st st',
  recording (recorder st) = false ->
  for_each session (cycle whisper wav_bytes args) st = (inr tt, st') ->
  recording (recorder st') = false.
Proof.
  induction session as [|e rest IH]; intros st st' Hst H; simpl in H.
  - now injection H as <-.
  - apply bind_inr_inv in H as ([] & st1 & Hturn & Hrest).
    apply (IH st1); [|exact Hrest].
    now destruct (turn_ends_disarmed _ _ _ _ Hturn).
Qed.

Lemma main_loop_app args s1 s2 st :
  main_loop whisper wav_bytes args (s1 ++ s2) st
  = (for_each s1 (cycle whisper wav_bytes args) ;;
     main_loop whisper wav_bytes args s2) st.
Proof.
  revert st. induction s1 as [|e s1 IH]; intros st; simpl; [reflexivity|].
  unfold bind.
  destruct (cycle whisper wav_bytes args e st) as [[ex|[]] st1]; [reflexivity|].
  rewrite IH. reflexivity.
Qed.

Lemma transcribe_runs audio_path model lang w :
  whisper_runs (snd (transcribe whisper audio_path model lang w))
  = whisper_runs w ++ [whisper_argv audio_path model lang].
Proof.
  unfold transcribe.
  set (argv := whisper_argv audio_path model lang).
  unfold bind at 1. rewrite run_whisper_spec.
  match goal with
  | |- whisper_runs (snd (?k ?w1)) = _ =>
      assert (Hk : preserves whisper_runs k)
  end.
  { frame. }
  rewrite Hk. reflexivity.
Qed.

Lemma recognize_runs args e st :
  whisper_runs (world (snd (recognize whisper args e st)))
  = whisper_runs (world st)
    ++ [whisper_argv (temp_path e) (model args) (lang args)].
Proof.
  unfold recognize. unfold bind at 1. rewrite io_spec.
  pose proof (transcribe_runs (temp_path e) (model args) (lang args) (world st))
    as Hruns.
  destruct (transcribe whisper (temp_path e) (model args) (lang args) (world st))
    as [[ex|text] w1]; simpl in *; [exact Hruns|].
  match goal with
  | |- whisper_runs (world (snd (?k ?s1))) = _ =>
      assert (Hk : preserves (fun st => whisper_runs (world st)) k)
  end.
  { frame. }
  rewrite Hk. exact Hruns.
Qed.

(** X4. However a turn ends, by a return or by an exception, it has run
    the recognizer at most once, and then on its temporary file with the
    model and the language of the command line. *)
Theorem turn_runs_recognizer_at_most_once args e st :
  let st' := state_after (cycle whisper wav_bytes args e) st in
  whisper_runs (world st') = whisper_runs (world st)
  \/ whisper_runs (world st')
     = whisper_runs (world st)
       ++ [whisper_argv (temp_path e) (model args) (lang args)].
Proof.
  intros st'.
  assert (H : st' = snd (cycle whisper wav_bytes args e st)) by reflexivity.
  clearbody st'. unfold cycle in H. unfold bind at 1 in H.
  pose proof (record_keeps_runs e st) as Hrec.
  destruct (record e st) as [[ex|audio] st1]; cbn [snd] in *;
    [left; now subst st'|].
  rewrite <- Hrec.
  destruct (length audio =? 0)%nat.
  { left. subst st'. apply (preserves_io whisper_runs). frame_eval. }
  unfold bind at 1 in H.
  assert (Hw : preserves (fun st => whisper_runs (world st))
                 (write_temp wav_bytes e audio)).
  { unfold write_temp. frame. }
  specialize (Hw st1).
  destruct (write_temp wav_bytes e audio st1) as [[ex|[]] st2];
    cbn [snd] in *; [left; now subst st'|].
  rewrite <- Hw. right. unfold bind at 1 in H.
  pose proof (recognize_runs args e st2) as Hr.
  destruct (recognize whisper args e st2) as [[ex|text] st3];
    cbn [snd] in *; [now subst st'|].
  rewrite <- Hr. subst st'.
  assert (Hp : preserves (fun st => whisper_runs (world st))
                 (publish args e text)).
  { unfold publish. frame. }
  apply Hp.
Qed.

End TurnFacts.

(** ** Text paths *)

Lemma append_cons c a b : String c a +:+ b = String c (a +:+ b).
Proof. reflexivity. Qed.

Lemma length_append a b : String.length (a +:+ b) = String.length a + String.length b.
Proof. induction a as [|c a IH]; [reflexivity|]. rewrite append_cons. simpl. now rewrite IH. Qed.

Lemma rfind_dot_wav stem :
  Str.rfind_dot (stem +:+ ".wav") = Some (String.length stem).
Proof.
  induction stem as [|c a IH]; [reflexivity|].
  rewrite append_cons. simpl. now rewrite IH.
Qed.

Lemma substring_skip a b n :
  String.substring (String.length a) n (a +:+ b) = String.substring 0 n b.
Proof. induction a as [|c a IH]; [reflexivity|]. rewrite append_cons. simpl. exact IH. Qed.

Lemma substring_take a b :
  String.substring 0 (String.length a) (a +:+ b) = a.
Proof.
  induction a as [|c a IH].
  - simpl. now destruct b.
  - rewrite append_cons. simpl. now rewrite IH.
Qed.

Lemma with_suffix_wav (p : Path) stem :
  PathLib.name p = stem +:+ ".wav" -> stem <> EmptyString ->
  PathLib.with_suffix p ".txt" = inr (PathLib.parent p ++ [stem +:+ ".txt"]).
Proof.
  intros Hname Hstem. unfold PathLib.with_suffix, PathLib.suffix.
  rewrite Hname, rfind_dot_wav, length_append.
  assert (Hlen : 0 < String.length stem) by (destruct stem; [contradiction|simpl; lia]).
  destruct stem as [|c stem]; [contradiction|].
  rewrite append_cons. cbn [Str.nonempty].
  rewrite <- append_cons.
  replace ((0 <? String.length (String c stem)) && (String.length (String c stem) <? String.length (String c stem) + String.length ".wav" - 1)) with true.
  2:{ symmetry. apply andb_true_iff. split; [apply Nat.ltb_lt; lia|apply Nat.ltb_lt; simpl; lia]. }
  replace (String.length (String c stem) + String.length ".wav" - String.length (String c stem)) with 4 by (simpl; lia).
  rewrite substring_skip.
  change (String.substring 0 4 ".wav") with ".wav".
  replace (String.length (String c stem) + String.length ".wav" - String.length ".wav") with (String.length (String c stem)) by (simpl; lia).
  now rewrite substring_take.
Qed.

Lemma parent_name (p : Path) : p <> [] -> p = PathLib.parent p ++ [PathLib.name p].
Proof.
  intros Hp. unfold PathLib.parent, PathLib.name.
  now apply app_removelast_last.
Qed.

(** The text path of a [.wav] path. *)
Lemma wav_text_path (p : Path) stem :
  PathLib.name p = stem +:+ ".wav" -> stem <> EmptyString ->
  PathLib.with_suffix p ".txt" = inr (PathLib.parent p ++ [stem +:+ ".txt"])
  /\ PathLib.parent p ++ [stem +:+ ".txt"] <> p.
Proof.
  intros Hname Hstem. split; [now apply with_suffix_wav|].
  intros Heq.
  assert (Hp : p <> []).
  { intros ->. destruct stem; [contradiction|discriminate]. }
  rewrite (parent_name p Hp) in Heq at 2. rewrite Hname in Heq.
  apply app_inj_tail in Heq as [_ Heq].
  assert (Hrev : forall a b c, a +:+ b = a +:+ c -> b = c).
  { induction a as [|x a IH]; intros b c H; [exact H|].
    rewrite !append_cons in H. injection H as H. now apply IH. }
  apply Hrev in Heq. discriminate.
Qed.

(** X12. For an audio file named [<stem>.wav], as the temporary files of
    [main] are, the text file [transcribe] looks for is [<stem>.txt] in the
    same directory, whatever dots the stem has, and it is another path
    than the audio file. *)
Theorem text_path_of_wav (p : Path) stem :
  PathLib.name p = stem +:+ ".wav" -> stem <> EmptyString ->
  PathLib.with_suffix p ".txt" = inr (PathLib.parent p ++ [stem +:+ ".txt"])
  /\ PathLib.parent p ++ [stem +:+ ".txt"] <> p.
Proof. exact (wav_text_path p stem). Qed.

(** ** The successful path *)

Section Success.

Variable whisper :
  list string -> gmap Path string -> CompletedProcess * gmap Path string.
Variable wav_bytes : Z -> list float32 -> string.



End Success.

(** ** Recorder: order of calls *)

(** X6. A second recording returns its own chunks only.  What the first
    one held is dropped by [start], and chunks delivered between [stop] and
    the next [start] are ignored by [_callback]. *)
Theorem recordings_are_independent st t1 t2 (cs1 late cs2 : list chunk) :
  is_Some (input_device (world st)) ->
  result_of
    (RecorderMethods.start t1 ;;
     for_each cs1 RecorderMethods._callback ;;
     RecorderMethods.stop ;;
     for_each late RecorderMethods._callback ;;
     RecorderMethods.start t2 ;;
     for_each cs2 RecorderMethods._callback ;;
     RecorderMethods.stop) st
  = inr (concat cs2).
Proof.
  intros Hdev. unfold result_of.
  erewrite bind_inr by (apply RecorderFacts.start_spec; exact Hdev).
  erewrite bind_inr by (apply RecorderFacts.callbacks_armed; reflexivity).
  erewrite bind_inr by (eapply RecorderFacts.stop_spec; reflexivity).
  erewrite bind_inr by (apply RecorderFacts.callbacks_idle; reflexivity).
  erewrite bind_inr by (apply RecorderFacts.start_spec; exact Hdev).
  erewrite bind_inr by (apply RecorderFacts.callbacks_armed; reflexivity).
  erewrite RecorderFacts.stop_spec by reflexivity.
  reflexivity.
Qed.

(** X7. [stop] on a recorder that was never started raises
    [AttributeError]: [__init__] does not set [self.stream].  Chunks
    delivered before are ignored, and the recorder is left as built. *)
Theorem stop_before_start_raises w r l (cs : list chunk) :
  result_of RecorderMethods.__init__ w = inr r ->
  let st := {| recorder := r; session_transcripts := l; world := w |} in
  (for_each cs RecorderMethods._callback ;; RecorderMethods.stop) st
  = (inl AttributeError, st).
Proof.
  intros Hinit st.
  assert (Hr : r = {| samplerate := samplerate r; recording := false;
                      audio_data := []; _start_time := 0%Q; stream := None |}).
  { unfold RecorderMethods.__init__, result_of in Hinit. revert Hinit. run.
    destruct (input_device w); simpl; [|discriminate].
    now intros [= <-]. }
  erewrite bind_inr
    by (apply RecorderFacts.callbacks_idle; unfold st; simpl; now rewrite Hr).
  unfold RecorderMethods.stop, RecorderMethods.the_stream. run.
  unfold st. simpl. rewrite Hr. reflexivity.
Qed.

(** ** main *)


Section MainFacts.

Variable whisper :
  list string -> gmap Path string -> CompletedProcess * gmap Path string.
Variable wav_bytes : Z -> list float32 -> string.

Lemma banner_returns args r w : fst (banner args r w) = inr tt.
Proof. unfold banner. run. now destruct (output args). Qed.

Lemma main_spec args session w r :
  RecorderMethods.__init__ w = (inr r, w) ->
  main whisper wav_bytes args session w
  = (fst (main_try whisper wav_bytes args session (started args w r)),
     world (snd (main_try whisper wav_bytes args session (started args w r)))).
Proof.
  intros Hinit. unfold main. erewrite bind_inr by exact Hinit.
  pose proof (banner_returns args r w) as Hb. unfold bind at 1.
  unfold started.
  destruct (banner args r w) as [[ex|[]] w1]; simpl in Hb; [discriminate|].
  simpl. unfold main_try.
  now destruct (try_except _ _ _ _).
Qed.

Lemma init_spec w :
  RecorderMethods.__init__ w
  = match input_device w with
    | Some rate =>
        (inr {| samplerate := int_of rate; recording := false;
                audio_data := []; _start_time := 0%Q; stream := None |}, w)
    | None => (inl PortAudioError, w)
    end.
Proof. unfold RecorderMethods.__init__. run. now destruct (input_device w). Qed.

(** X8. Without an input device [main] stops in [Recorder()] with the
    backend's error, before it has printed or touched anything. *)
Theorem main_without_input_device args session w :
  input_device w = None ->
  main whisper wav_bytes args session w = (inl PortAudioError, w).
Proof.
  intros Hdev. unfold main.
  erewrite bind_inl; [reflexivity|]. now rewrite init_spec, Hdev.
Qed.

(** The loop has no normal exit. *)
Lemma main_loop_raises args session : forall st,
  exists ex, fst (main_loop whisper wav_bytes args session st) = inl ex.
Proof.
  induction session as [|e rest IH]; intros st; simpl.
  - exists EOFError. reflexivity.
  - unfold bind.
    destruct (cycle whisper wav_bytes args e st) as [[ex|[]] st1]; [eauto|].
    apply IH.
Qed.

(** X9. The loop of [main] has no normal exit.  When [main] returns, its
    loop was cut by a [KeyboardInterrupt], and all [main] did after it is
    print the farewell. *)
Theorem main_returns_only_after_interrupt args session w w' :
  main whisper wav_bytes args session w = (inr tt, w') ->
  exists st st1,
    main_loop whisper wav_bytes args session st = (inl KeyboardInterrupt, st1)
    /\ stdout w'
       = stdout (world st1) ++ [Text ((Str.nl +:+ "Goodbye!") +:+ Str.nl)]
    /\ files w' = files (world st1)
    /\ clipboard w' = clipboard (world st1).
Proof.
  intros H.
  destruct (input_device w) as [rate|] eqn:Hdev.
  2:{ unfold main in H.
      erewrite bind_inl in H by (rewrite init_spec, Hdev; reflexivity).
      discriminate. }
  pose proof (init_spec w) as Hinit. rewrite Hdev in Hinit.
  rewrite (main_spec _ _ _ _ Hinit) in H.
  set (st := started args w _) in H.
  unfold main_try, try_except in H.
  destruct (main_loop_raises args session st) as [ex Hex].
  destruct (main_loop whisper wav_bytes args session st) as [[ex'|[]] st1] eqn:Hloop;
    simpl in Hex; [|discriminate].
  destruct (decide (ex' = KeyboardInterrupt)) as [->|Hne];
    [|simpl in H; discriminate].
  exists st, st1. split; [exact Hloop|].
  injection H as <-. repeat split.
Qed.

(** X10. When standard input ends after turns that all completed, [main]
    dies with [EOFError] at the prompt, without a farewell: it catches
    [KeyboardInterrupt] only. *)
Theorem main_at_end_of_input args session w r st' :
  RecorderMethods.__init__ w = (inr r, w) ->
  for_each session (cycle whisper wav_bytes args) (started args w r)
  = (inr tt, st') ->
  main whisper wav_bytes args session w
  = (inl EOFError,
     with_stdout
       (stdout (world st') ++ [Text "Press Enter to start recording..."])
       (world st')).
Proof.
  intros Hinit Hturns. rewrite (main_spec _ _ _ _ Hinit).
  unfold main_try, try_except.
  rewrite <- (app_nil_r session), main_loop_app.
  erewrite bind_inr by exact Hturns. reflexivity.
Qed.

(** X11. Ctrl-C at the second prompt, while recording: [main] says
    goodbye and returns, and [Recorder.stop] is never called.  The recorder
    is left armed with its stream running and the chunks it received; no
    file, clipboard or recognizer is touched. *)
Theorem interrupt_while_recording args e rest st :
  key_start e = Enter -> key_stop e = CtrlC ->
  is_Some (input_device (world st)) ->
  let run := main_try whisper wav_bytes args (e :: rest) in
  let st' := state_after run st in
  result_of run st = inr tt
  /\ recording (recorder st') = true
  /\ stream (recorder st') = Some Running
  /\ audio_data (recorder st') = chunks e
  /\ files (world st') = files (world st)
  /\ dirs (world st') = dirs (world st)
  /\ clipboard (world st') = clipboard (world st)
  /\ whisper_runs (world st') = whisper_runs (world st)
  /\ session_transcripts st' = session_transcripts st
  /\ last (stdout (world st'))
     = Some (Text ((Str.nl +:+ "Goodbye!") +:+ Str.nl)).
Proof.
  intros K1 K2 Hdev run st'.
  assert (Hrec : exists st1,
             record e st = (inl KeyboardInterrupt, st1)
             /\ recorder st1
                = set_audio_data (chunks e) (armed (arm_time e) (recorder st))
             /\ session_transcripts st1 = session_transcripts st
             /\ files (world st1) = files (world st)
             /\ dirs (world st1) = dirs (world st)
             /\ clipboard (world st1) = clipboard (world st)
             /\ whisper_runs (world st1) = whisper_runs (world st)).
  { eexists. split.
    - unfold record. rewrite K1, K2.
      erewrite bind_inr by reflexivity.
      erewrite bind_inr by (apply RecorderFacts.start_spec; exact Hdev).
      erewrite bind_inr by apply timer_ticks.
      erewrite bind_inr
        by (apply RecorderFacts.callbacks_armed; reflexivity).
      erewrite bind_inl by reflexivity. reflexivity.
    - repeat split. }
  destruct Hrec as (st1 & Hrec & Hr & Hl & Hf & Hd & Hc & Hw).
  assert (Hrun : run st
                 = io (print (Str.nl +:+ "Goodbye!")) st1).
  { unfold run, main_try, try_except. simpl. unfold cycle.
    erewrite bind_inl; [|erewrite bind_inl by exact Hrec; reflexivity].
    reflexivity. }
  unfold st', result_of, state_after. rewrite Hrun. simpl.
  rewrite Hr, Hl, Hf, Hd, Hc, Hw. repeat split.
  apply last_snoc.
Qed.

End MainFacts.

(** ** Blank transcripts *)

Lemma substring_all s : String.substring 0 (String.length s) s = s.
Proof. induction s as [|c s IH]; [reflexivity|]. simpl. now rewrite IH. Qed.

Lemma drop_leading_blank s : forall fuel,
  String.length s <= fuel -> blank s = true ->
  Str.drop_leading fuel Str.whitespace s = EmptyString.
Proof.
  induction s as [|c s IH]; intros fuel Hfuel Hblank.
  - destruct fuel; reflexivity.
  - destruct fuel as [|fuel]; [simpl in Hfuel; lia|].
    simpl in Hblank. apply andb_true_iff in Hblank as [Hc Hs].
    assert (Hfind : find (fun w => String.prefix w (String c s)) Str.whitespace
                    = Some (String c EmptyString)).
    { unfold ascii_blank in Hc.
      destruct c as [[] [] [] [] [] [] [] []]; try discriminate Hc; clear; destruct s; vm_compute; reflexivity. }
    cbn [Str.drop_leading]. rewrite Hfind.
    cbn [String.length]. rewrite Nat.sub_succ, Nat.sub_0_r.
    change (String.substring 1 (String.length s) (String c s))
      with (String.substring 0 (String.length s) s).
    rewrite substring_all. apply IH; [simpl in Hfuel; lia|exact Hs].
Qed.

Lemma strip_blank s : blank s = true -> Str.strip s = EmptyString.
Proof.
  intros H. unfold Str.strip, Str.lstrip.
  rewrite drop_leading_blank by (auto; lia). reflexivity.
Qed.

Section BlankText.

Variable whisper :
  list string -> gmap Path string -> CompletedProcess * gmap Path string.

(** X2. A text file of blanks only (spaces, newlines and the like) counts
    as no text: [transcribe] returns the empty string, though the
    recognizer exited with status zero, and removes the file without a
    diagnostic; [main] then prints "Transcription failed or no content!". *)
Theorem blank_text_counts_as_failure w audio_path model lang stem content :
  let argv := whisper_argv audio_path model lang in
  let txt_path := PathLib.parent audio_path ++ [stem +:+ ".txt"] in
  let left_by_whisper := snd (whisper argv (files w)) in
  let call := transcribe whisper audio_path model lang in
  PathLib.name audio_path = stem +:+ ".wav" -> stem <> EmptyString ->
  returncode (whisper_result whisper argv w) = 0%Z ->
  left_by_whisper !! txt_path = Some content ->
  blank content = true ->
  result_of call w = inr EmptyString
  /\ files (state_after call w) = delete txt_path left_by_whisper
  /\ stderr (state_after call w) = stderr w
  /\ stdout (state_after call w) = stdout w
  /\ forall args e st,
       stdout (world (state_after (publish args e EmptyString) st))
       = stdout (world st)
         ++ [Text ("Transcription failed or no content!" +:+ Str.nl);
             Text (EmptyString +:+ Str.nl)].
Proof.
  intros argv txt_path fs call Hname Hstem Hrc Hfile Hblank.
  destruct (wav_text_path audio_path stem Hname Hstem) as [Htxt _].
  fold txt_path in Htxt.
  pose proof (transcribe_artifact whisper w audio_path model lang txt_path
                content Hrc Htxt Hfile) as Hcall.
  rewrite (strip_blank content Hblank) in Hcall.
  unfold call, result_of, state_after. rewrite Hcall.
  repeat split.
  intros args e st. now rewrite publish_nothing.
Qed.

End BlankText.

(** ** Runs of the further properties on sample data *)


Lemma blank_text_counts_as_failure_witness :
  let call := transcribe MoreSamples.whisper_blank Samples.temp0 "base" "en" in
  result_of call Samples.world_staged = inr EmptyString
  /\ files (state_after call Samples.world_staged) !! Samples.text0 = None
  /\ stderr (state_after call Samples.world_staged) = [].
Proof.
  destruct (blank_text_counts_as_failure MoreSamples.whisper_blank
              Samples.world_staged Samples.temp0 "base" "en"
              MoreSamples.stem0 (" " +:+ Str.nl))
    as (Hres & Hfiles & Herr & _).
  - reflexivity.
  - discriminate.
  - reflexivity.
  - vm_compute. reflexivity.
  - reflexivity.
  - split; [exact Hres|]. split; [|exact Herr].
    rewrite Hfiles. apply lookup_delete_eq.
Defined.


Lemma recorder_is_disarmed_between_turns_witness :
  recording
    (recorder
       (state_after
          (for_each [Samples.env_silent; Samples.env0]
             (cycle Samples.whisper_hello Samples.wav0 Samples.args0))
          Samples.state0))
  = false.
Proof.
  apply (recorder_is_disarmed_between_turns Samples.whisper_hello Samples.wav0
           Samples.args0 [Samples.env_silent; Samples.env0] Samples.state0).
  - reflexivity.
  - vm_compute. reflexivity.
Defined.

Lemma text_path_of_wav_witness :
  PathLib.with_suffix Samples.temp0 ".txt" = inr Samples.text0
  /\ Samples.text0 <> Samples.temp0.
Proof.
  assert (Hstem : MoreSamples.stem0 <> EmptyString) by discriminate.
  exact (text_path_of_wav Samples.temp0 MoreSamples.stem0 eq_refl Hstem).
Defined.

Lemma recordings_are_independent_witness :
  result_of
    (RecorderMethods.start 100 ;;
     for_each Samples.chunks0 RecorderMethods._callback ;;
     RecorderMethods.stop ;;
     for_each [[7]%N] RecorderMethods._callback ;;
     RecorderMethods.start 200 ;;
     for_each [[4; 5]%N] RecorderMethods._callback ;;
     RecorderMethods.stop) Samples.state0
  = inr [4; 5]%N.
Proof.
  apply (recordings_are_independent Samples.state0 100 200 Samples.chunks0
           [[7]%N] [[4; 5]%N]).
  eexists. reflexivity.
Defined.

Lemma stop_before_start_raises_witness :
  (for_each Samples.chunks0 RecorderMethods._callback ;; RecorderMethods.stop)
    Samples.state0
  = (inl AttributeError, Samples.state0).
Proof.
  exact (stop_before_start_raises Samples.world0 Samples.recorder0 []
           Samples.chunks0 eq_refl).
Defined.

Lemma main_without_input_device_witness :
  main Samples.whisper_hello Samples.wav0 Samples.args0 [Samples.env0]
    MoreSamples.world_mute
  = (inl PortAudioError, MoreSamples.world_mute).
Proof. now apply main_without_input_device. Defined.

Lemma main_returns_only_after_interrupt_witness :
  let run :=
    main Samples.whisper_hello Samples.wav0 Samples.args0
      [Samples.env_silent; MoreSamples.env_quit] in
  exists st st1,
    main_loop Samples.whisper_hello Samples.wav0 Samples.args0
      [Samples.env_silent; MoreSamples.env_quit] st
    = (inl KeyboardInterrupt, st1)
    /\ stdout (state_after run Samples.world0)
       = stdout (world st1) ++ [Text ((Str.nl +:+ "Goodbye!") +:+ Str.nl)].
Proof.
  intros run.
  destruct (main_returns_only_after_interrupt Samples.whisper_hello
              Samples.wav0 Samples.args0
              [Samples.env_silent; MoreSamples.env_quit] Samples.world0
              (state_after run Samples.world0))
    as (st & st1 & Hloop & Hout & _).
  - vm_compute. reflexivity.
  - exists st, st1. split; [exact Hloop|exact Hout].
Defined.

Lemma main_at_end_of_input_witness :
  result_of
    (main Samples.whisper_hello Samples.wav0 Samples.args0 [Samples.env_silent])
    Samples.world0
  = inl EOFError.
Proof.
  unfold result_of.
  rewrite (main_at_end_of_input Samples.whisper_hello Samples.wav0
             Samples.args0 [Samples.env_silent] Samples.world0
             Samples.recorder0
             (state_after
                (for_each [Samples.env_silent]
                   (cycle Samples.whisper_hello Samples.wav0 Samples.args0))
                (started Samples.args0 Samples.world0 Samples.recorder0))).
  - reflexivity.
  - reflexivity.
  - vm_compute. reflexivity.
Defined.

Lemma interrupt_while_recording_witness :
  let run :=
    main_try Samples.whisper_hello Samples.wav0 Samples.args0
      [MoreSamples.env_cut] in
  result_of run Samples.state0 = inr tt
  /\ recording (recorder (state_after run Samples.state0)) = true
  /\ stream (recorder (state_after run Samples.state0)) = Some Running.
Proof.
  assert (Hdev : is_Some (input_device (world Samples.state0)))
    by (eexists; reflexivity).
  destruct (interrupt_while_recording Samples.whisper_hello Samples.wav0
              Samples.args0 MoreSamples.env_cut [] Samples.state0
              eq_refl eq_refl Hdev)
    as (Hres & Hrec & Hstream & _).
  split; [exact Hres|]. split; [exact Hrec|exact Hstream].
Defined.

(** * gen_json_schema *)

Import GenJsonSchema.

(** ** Dictionaries *)

Lemma call_at_has f k d : has k d = true -> is_Some (call_at f k d).
Proof.
  unfold has. induction d as [|[k' v] rest IH]; simpl; [discriminate|].
  destruct (String.eqb k k'); [destruct (f v); eauto|].
  intros H. destruct (IH H) as [[rest' err] ->]. eauto.
Qed.

Lemma call_at_id f k d :
  has k d = true ->
  (forall v, dict_get k d = Some v -> f v = (v, None)) ->
  call_at f k d = Some (d, None).
Proof.
  unfold has. induction d as [|[k' v] rest IH]; simpl; [discriminate|].
  destruct (String.eqb k k'); intros H Hf.
  - now rewrite (Hf v eq_refl).
  - now rewrite (IH H Hf).
Qed.

Lemma for_items_id body d :
  (forall k v, In (k, v) d -> body k v = (v, None)) ->
  for_items body d = (d, None).
Proof.
  induction d as [|[k v] rest IH]; intros H; simpl; [reflexivity|].
  rewrite (H k v) by now left. rewrite IH; [reflexivity|].
  intros k' v' Hin. apply H. now right.
Qed.

(** X17.  A property whose value in the example is missing or falsy ([None],
    [False], [0], [0.0], an empty string, list or dictionary) gets no
    example: when every property of an object schema is so, the schema is
    left as it was and nothing is raised. *)
Theorem falsy_values_are_never_examples d props ex :
  is_str (dict_get "type" d) "object" = true ->
  dict_get "properties" d = Some (JDict props) ->
  (forall key subschema, In (key, subschema) props ->
     match dict_get key ex with
     | Some value => truthy value = false
     | None => True
     end) ->
  add_example (JDict d) (JDict ex) = (JDict d, None).
Proof.
  intros Htype Hprops Hfalsy.
  assert (Hhas : has "properties" d = true) by (unfold has; now rewrite Hprops).
  assert (Harr : is_str (dict_get "type" d) "array" = false).
  { unfold is_str in *. destruct (dict_get "type" d) as [[]|]; try discriminate.
    apply String.eqb_eq in Htype. now subst. }
  cbn [add_example]. rewrite Harr, Htype, Hhas. cbn [andb].
  rewrite call_at_id; [reflexivity|exact Hhas|].
  intros v Hv. rewrite Hprops in Hv. injection Hv as <-.
  rewrite for_items_id; [reflexivity|].
  intros key subschema Hin. specialize (Hfalsy key subschema Hin).
  destruct (dict_get key ex) as [value|]; [|reflexivity].
  now rewrite Hfalsy.
Qed.

Lemma call_at_spec f k d d' err v :
  call_at f k d = Some (d', err) ->
  dict_get k d = Some v ->
  dict_get k d' = Some (fst (f v)) /\ err = snd (f v)
  /\ forall k', k' <> k -> dict_get k' d' = dict_get k' d.
Proof.
  revert d' err. induction d as [|[k0 v0] rest IH]; intros d' err; simpl;
    [discriminate|].
  destruct (String.eqb k k0) eqn:E.
  - apply String.eqb_eq in E. subst k0.
    destruct (f v0) as [v0' e0] eqn:Ef. intros [= <- <-] [= <-].
    simpl. rewrite String.eqb_refl, Ef. repeat split.
    intros k' Hk'. apply String.eqb_neq in Hk'. now rewrite Hk'.
  - destruct (call_at f k rest) as [[rest' e']|] eqn:Ec; [|discriminate].
    intros [= <- <-] Hget. destruct (IH _ _ eq_refl Hget) as (H1 & H2 & H3).
    simpl. rewrite E. repeat split; [exact H1|exact H2|].
    intros k' Hk'. destruct (String.eqb k' k0); [reflexivity|]. now apply H3.
Qed.

Lemma for_items_spec body d d' k v :
  for_items body d = (d', None) ->
  dict_get k d = Some v ->
  dict_get k d' = Some (fst (body k v)) /\ snd (body k v) = None.
Proof.
  revert d'. induction d as [|[k0 v0] rest IH]; intros d'; simpl;
    [discriminate|].
  destruct (body k0 v0) as [v0' [e|]] eqn:Eb; [discriminate|].
  destruct (for_items body rest) as [rest' err'] eqn:Ef.
  intros [= <- ->].
  destruct (String.eqb k k0) eqn:E.
  - apply String.eqb_eq in E. subst k0. intros [= <-].
    simpl. rewrite String.eqb_refl, Eb. now split.
  - intros Hget. simpl. rewrite E. now apply IH.
Qed.

Lemma for_items_raises body d k v :
  In (k, v) d -> snd (body k v) <> None -> snd (for_items body d) <> None.
Proof.
  induction d as [|[k0 v0] rest IH]; intros Hin Herr; [destruct Hin|].
  simpl. destruct (body k0 v0) as [v0' [e|]] eqn:Eb; [discriminate|].
  destruct Hin as [[= -> ->]|Hin]; [now rewrite Eb in Herr|].
  specialize (IH Hin Herr).
  now destruct (for_items body rest) as [rest' err'].
Qed.

Lemma dict_get_set k v d : dict_get k (dict_set k v d) = Some v.
Proof.
  induction d as [|[k0 v0] rest IH]; simpl.
  - now rewrite String.eqb_refl.
  - destruct (String.eqb k k0) eqn:E; simpl; rewrite E; [reflexivity|exact IH].
Qed.

Lemma dict_get_set_other k k' v d :
  k' <> k -> dict_get k' (dict_set k v d) = dict_get k' d.
Proof.
  intros Hne. induction d as [|[k0 v0] rest IH]; simpl.
  - apply String.eqb_neq in Hne. now rewrite Hne.
  - destruct (String.eqb k k0) eqn:E; simpl.
    + apply String.eqb_eq in E. subst k0.
      apply String.eqb_neq in Hne. now rewrite Hne.
    + now rewrite IH.
Qed.

Lemma object_not_array d :
  is_str (dict_get "type" d) "object" = true ->
  is_str (dict_get "type" d) "array" = false.
Proof.
  unfold is_str. destruct (dict_get "type" d) as [[]|]; try discriminate.
  intros H. apply String.eqb_eq in H. now subst.
Qed.

Lemma add_example_object d props ex :
  is_str (dict_get "type" d) "object" = true ->
  dict_get "properties" d = Some (JDict props) ->
  add_example (JDict d) (JDict ex)
  = match call_at
            (fun properties =>
               match properties with
               | JDict props =>
                   let '(props', err) := for_items (property_body ex) props in
                   (JDict props', err)
               | _ => (properties, Some AttributeError)
               end) "properties" d with
    | Some (d', err) => (JDict d', err)
    | None => (JDict d, Some KeyError)
    end.
Proof.
  intros Htype Hprops.
  assert (Hhas : has "properties" d = true) by (unfold has; now rewrite Hprops).
  cbn [add_example]. rewrite (object_not_array d Htype), Htype, Hhas.
  reflexivity.
Qed.

Lemma call_at_missing f k d : dict_get k d = None -> call_at f k d = None.
Proof.
  induction d as [|[k0 v0] rest IH]; simpl; [reflexivity|].
  destruct (String.eqb k k0); [discriminate|]. intros H. now rewrite IH.
Qed.

(** X16.  In a call that returns, a property whose value in the example is
    a truthy scalar has that value as its ["example"] afterwards, and the
    other entries of the property's schema are as before. *)
Theorem truthy_scalars_become_examples d props ex d' key sd value :
  is_str (dict_get "type" d) "object" = true ->
  dict_get "properties" d = Some (JDict props) ->
  add_example (JDict d) (JDict ex) = (JDict d', None) ->
  dict_get key props = Some (JDict sd) ->
  dict_get key ex = Some value ->
  truthy value = true -> is_scalar value = true ->
  exists props' sd',
    dict_get "properties" d' = Some (JDict props')
    /\ dict_get key props' = Some (JDict sd')
    /\ dict_get "example" sd' = Some value
    /\ forall k, k <> "example" -> dict_get k sd' = dict_get k sd.
Proof.
  intros Htype Hprops Hrun Hsub Hval Htruthy Hscalar.
  rewrite (add_example_object d props ex Htype Hprops) in Hrun.
  destruct (call_at _ "properties" d) as [[d1 err]|] eqn:Hcall; [|discriminate].
  injection Hrun as -> ->.
  destruct (call_at_spec _ _ _ _ _ _ Hcall Hprops) as (Hget & Herr & _).
  destruct (for_items (property_body ex) props) as [props' err'] eqn:Hloop.
  simpl in Hget, Herr. subst err'.
  destruct (for_items_spec _ _ _ _ _ Hloop Hsub) as (Hkey & _).
  exists props', (dict_set "example" value sd).
  split; [exact Hget|].
  assert (Hbody : property_body ex key (JDict sd)
                  = (JDict (dict_set "example" value sd), None)).
  { unfold property_body. rewrite Hval, Htruthy.
    destruct value; try discriminate Hscalar; reflexivity. }
  rewrite Hbody in Hkey. split; [exact Hkey|].
  split; [apply dict_get_set|].
  intros k Hk. now apply dict_get_set_other.
Qed.

(** X18.  A property whose value in the example is a list that starts with
    an object needs an ["items"] entry in its schema: without one,
    [add_example] raises. *)
Theorem list_of_objects_needs_items d props ex key sd first more :
  is_str (dict_get "type" d) "object" = true ->
  dict_get "properties" d = Some (JDict props) ->
  In (key, JDict sd) props ->
  dict_get key ex = Some (JList (JDict first :: more)) ->
  dict_get "items" sd = None ->
  exists e, snd (add_example (JDict d) (JDict ex)) = Some e.
Proof.
  intros Htype Hprops Hin Hval Hitems.
  rewrite (add_example_object d props ex Htype Hprops).
  destruct (call_at _ "properties" d) as [[d1 err]|] eqn:Hcall;
    [|now exists KeyError].
  destruct (call_at_spec _ _ _ _ _ _ Hcall Hprops) as (_ & Herr & _).
  simpl. rewrite Herr.
  assert (Hbody : snd (property_body ex key (JDict sd)) <> None).
  { unfold property_body. rewrite Hval. cbn [truthy].
    now rewrite (call_at_missing _ _ _ Hitems). }
  pose proof (for_items_raises _ _ _ _ Hin Hbody) as Hloop.
  destruct (for_items (property_body ex) props) as [props' [e|]];
    [now exists e|now destruct Hloop].
Qed.

Lemma add_example_object_any d example :
  is_str (dict_get "type" d) "object" = true ->
  has "properties" d = true ->
  add_example (JDict d) example
  = match call_at (on_properties example) "properties" d with
    | Some (d', err) => (JDict d', err)
    | None => (JDict d, Some KeyError)
    end.
Proof.
  intros Htype Hhas.
  cbn [add_example]. rewrite (object_not_array d Htype), Htype, Hhas.
  reflexivity.
Qed.

Lemma add_example_array d first more :
  is_str (dict_get "type" d) "array" = true ->
  has "items" d = true ->
  add_example (JDict d) (JList (first :: more))
  = match call_at (fun items => add_example items first) "items" d with
    | Some (d', err) => (JDict d', err)
    | None => (JDict d, Some KeyError)
    end.
Proof. intros Htype Hhas. cbn [add_example]. now rewrite Htype, Hhas. Qed.

(** Every other case leaves the schema alone. *)
Lemma add_example_other schema example :
  match schema with
  | JDict d =>
      (is_str (dict_get "type" d) "array" && has "items" d = true
       /\ match example with JList (_ :: _) => False | _ => True end)
      \/ (is_str (dict_get "type" d) "array" && has "items" d = false
          /\ is_str (dict_get "type" d) "object" && has "properties" d = false)
  | _ => True
  end ->
  fst (add_example schema example) = schema.
Proof.
  destruct schema; try reflexivity.
  intros [[Harr Hex]|[Harr Hobj]]; cbn [add_example]; rewrite Harr.
  - destruct example as [| | | | |[|first more]|]; try reflexivity.
    destruct Hex.
  - now rewrite Hobj.
Qed.

Lemma size_entry k v d : In (k, v) d -> size v < size (JDict d).
Proof.
  induction d as [|[k0 v0] rest IH]; intros Hin; [destruct Hin|].
  simpl in *. destruct Hin as [[= -> ->]|Hin]; [lia|].
  specialize (IH Hin). lia.
Qed.

Lemma dict_get_in k d v : dict_get k d = Some v -> exists k', In (k', v) d.
Proof.
  induction d as [|[k0 v0] rest IH]; simpl; [discriminate|].
  destruct (String.eqb k k0).
  - intros [= <-]. eauto.
  - intros H. destruct (IH H) as [k' Hin]. eauto.
Qed.

Lemma size_dict_get k d v : dict_get k d = Some v -> size v < size (JDict d).
Proof.
  intros H. destruct (dict_get_in _ _ _ H) as [k' Hin].
  now apply size_entry with (k := k').
Qed.








Lemma call_at_idem f k d d' err :
  (forall v, dict_get k d = Some v -> f (fst (f v)) = f v) ->
  call_at f k d = Some (d', err) ->
  call_at f k d' = Some (d', err).
Proof.
  revert d' err. induction d as [|[k0 v0] rest IH]; intros d' err Hf; simpl;
    [discriminate|].
  simpl in Hf. destruct (String.eqb k k0) eqn:E.
  - specialize (Hf v0 eq_refl). destruct (f v0) as [v0' e0] eqn:Ef.
    intros [= <- <-]. simpl in *. now rewrite E, Hf.
  - destruct (call_at f k rest) as [[rest' e']|] eqn:Ec; [|discriminate].
    intros [= <- <-]. simpl. rewrite E. now rewrite (IH _ _ Hf eq_refl).
Qed.

Lemma for_items_idem body d :
  (forall k v, In (k, v) d -> body k (fst (body k v)) = body k v) ->
  for_items body (fst (for_items body d)) = for_items body d.
Proof.
  induction d as [|[k0 v0] rest IH]; intros Hb; [reflexivity|].
  simpl. pose proof (Hb k0 v0 (or_introl eq_refl)) as H0.
  destruct (body k0 v0) as [v0' [e|]] eqn:E0; simpl in H0.
  - simpl. now rewrite H0.
  - assert (Hrest : for_items body (fst (for_items body rest))
                    = for_items body rest).
    { apply IH. intros k v Hin. apply Hb. now right. }
    destruct (for_items body rest) as [rest' err']. simpl in *.
    now rewrite H0, Hrest.
Qed.

Lemma dict_set_idem k v d : dict_set k v (dict_set k v d) = dict_set k v d.
Proof.
  induction d as [|[k0 v0] rest IH]; simpl.
  - now rewrite String.eqb_refl.
  - destruct (String.eqb k k0) eqn:E; simpl; rewrite E; [reflexivity|].
    now rewrite IH.
Qed.

Lemma call_at_keeps f k d d' err :
  has k d = true ->
  call_at f k d = Some (d', err) ->
  has k d' = true /\ forall k', k' <> k -> dict_get k' d' = dict_get k' d.
Proof.
  unfold has. intros Hhas Hcall.
  destruct (dict_get k d) as [v|] eqn:Hv; [|discriminate].
  destruct (call_at_spec _ _ _ _ _ _ Hcall Hv) as (H1 & _ & H3).
  rewrite H1. now split.
Qed.

Lemma add_example_idem_bounded n : forall schema example,
  size schema < n ->
  add_example (fst (add_example schema example)) example
  = add_example schema example.
Proof.
  induction n as [|n IH]; intros schema example Hsize; [lia|].
  destruct schema as [| | | | | |d]; try reflexivity.
  destruct (is_str (dict_get "type" d) "array" && has "items" d) eqn:Harr.
  - destruct example as [| | | | |[|first more]|];
      try (rewrite add_example_other; [reflexivity|left; now rewrite Harr]).
    apply andb_true_iff in Harr as [Htype Hhas].
    rewrite add_example_array by assumption.
    destruct (call_at _ "items" d) as [[d' err]|] eqn:Hcall.
    2:{ cbn [fst]. rewrite add_example_array by assumption.
        now rewrite Hcall. }
    cbn [fst].
    destruct (call_at_keeps _ _ _ _ _ Hhas Hcall) as [Hhas' Hkeep].
    rewrite add_example_array;
      [|rewrite Hkeep by discriminate; exact Htype|exact Hhas'].
    erewrite call_at_idem; [reflexivity| |exact Hcall].
    intros v Hv. apply IH. pose proof (size_dict_get _ _ _ Hv). lia.
  - destruct (is_str (dict_get "type" d) "object" && has "properties" d)
      eqn:Hobj;
      [|rewrite add_example_other; [reflexivity|right; now rewrite Harr, Hobj]].
    apply andb_true_iff in Hobj as [Htype Hhas].
    rewrite add_example_object_any by assumption.
    destruct (call_at _ "properties" d) as [[d' err]|] eqn:Hcall.
    2:{ cbn [fst]. rewrite add_example_object_any by assumption.
        now rewrite Hcall. }
    cbn [fst].
    destruct (call_at_keeps _ _ _ _ _ Hhas Hcall) as [Hhas' Hkeep].
    rewrite add_example_object_any;
      [|rewrite Hkeep by discriminate; exact Htype|exact Hhas'].
    erewrite call_at_idem; [reflexivity| |exact Hcall].
    intros pv Hpv. pose proof (size_dict_get _ _ _ Hpv) as Hpvsize.
    unfold on_properties. destruct pv as [| | | | | |props]; try reflexivity.
    pose proof (for_items_idem (object_body example) props) as Hloop.
    destruct (for_items (object_body example) props) as [props' err'].
    cbn [fst] in *. rewrite Hloop; [reflexivity|].
    intros key subschema Hin.
    pose proof (size_entry _ _ _ Hin) as Hsub.
    unfold object_body. destruct example as [| | | | | |ex]; try reflexivity.
    unfold property_body.
    destruct (dict_get key ex) as [value|]; [|reflexivity].
    destruct (truthy value); [|reflexivity].
    destruct value as [| | | | |[|[| | | | | |first] more]|vd];
      try reflexivity;
      try (destruct subschema as [| | | | | |sd]; try reflexivity;
           cbn [fst]; now rewrite dict_set_idem).
    + destruct subschema as [| | | | | |sd]; try reflexivity.
      destruct (call_at _ "items" sd) as [[sd' err1]|] eqn:Hitems.
      2:{ cbn [fst]. now rewrite Hitems. }
      cbn [fst]. erewrite call_at_idem; [reflexivity| |exact Hitems].
      intros v Hv. apply IH. pose proof (size_dict_get _ _ _ Hv). lia.
    + apply IH. lia.
Qed.

(** X15.  Running [add_example] a second time, with the same example,
    changes nothing more and ends the same way. *)
Theorem add_example_is_idempotent schema example :
  add_example (fst (add_example schema example)) example
  = add_example schema example.
Proof. apply (add_example_idem_bounded (S (size schema))). lia. Qed.


(** ** The two tests of [add_example] *)

Lemma array_not_object d :
  is_str (dict_get "type" d) "array" = true ->
  is_str (dict_get "type" d) "object" = false.
Proof.
  unfold is_str. destruct (dict_get "type" d) as [[]|]; try discriminate.
  intros H. apply String.eqb_eq in H. now subst.
Qed.

(** The source's two [if] statements, one after the other, do what the
    embedding does. *)
Lemma add_example_runs_both_tests schema example :
  add_example schema example
  = let '(schema1, err) := array_step schema example in
    match err with
    | Some e => (schema1, Some e)
    | None => object_step schema1 example
    end.
Proof.
  destruct schema as [| | | | | |d]; try reflexivity.
  unfold array_step.
  destruct (is_str (dict_get "type" d) "array" && has "items" d) eqn:Harr.
  - pose proof Harr as Hboth. apply andb_true_iff in Hboth as [Htype Hhas].
    assert (Hquiet : object_step (JDict d) example = (JDict d, None)).
    { unfold object_step. now rewrite (array_not_object d Htype). }
    destruct example as [| | | | |[|first more]|];
      try (cbn [add_example]; rewrite Harr, Hquiet; reflexivity).
    rewrite add_example_array by assumption.
    destruct (call_at _ "items" d) as [[d' [e|]]|] eqn:Hcall;
      try reflexivity.
    destruct (call_at_keeps _ _ _ _ _ Hhas Hcall) as [_ Hkeep].
    unfold object_step. rewrite Hkeep by discriminate.
    now rewrite (array_not_object d Htype).
  - cbn [add_example]. rewrite Harr. unfold object_step.
    now destruct (is_str (dict_get "type" d) "object" && has "properties" d).
Qed.

Lemma call_at_same f k d v err :
  dict_get k d = Some v -> f v = (v, err) -> call_at f k d = Some (d, err).
Proof.
  induction d as [|[k' v'] rest IH]; simpl; [discriminate|].
  destruct (String.eqb k k').
  - intros [= ->] ->. reflexivity.
  - intros Hget Hf. now rewrite (IH Hget Hf).
Qed.

(** X19.  An object schema with at least one property takes nothing but a
    dictionary for its example: for [None], a number, a string or a list,
    [add_example] raises [AttributeError] at the first property and leaves
    the schema as it was. *)
Theorem object_schema_rejects_other_examples d key subschema props example :
  is_str (dict_get "type" d) "object" = true ->
  dict_get "properties" d = Some (JDict ((key, subschema) :: props)) ->
  match example with JDict _ => False | _ => True end ->
  add_example (JDict d) example = (JDict d, Some AttributeError).
Proof.
  intros Htype Hprops Hother.
  rewrite add_example_object_any;
    [|exact Htype|unfold has; now rewrite Hprops].
  erewrite call_at_same; [reflexivity|exact Hprops|].
  destruct example; try reflexivity. destruct Hother.
Qed.

(** ** The elements of a list after the first *)

Lemma call_at_ext f g k d :
  (forall v, dict_get k d = Some v -> f v = g v) ->
  call_at f k d = call_at g k d.
Proof.
  induction d as [|[k' v'] rest IH]; simpl; [reflexivity|].
  destruct (String.eqb k k'); intros H.
  - now rewrite (H v' eq_refl).
  - now rewrite (IH H).
Qed.

Lemma for_items_ext body body' d :
  (forall k v, In (k, v) d -> body k v = body' k v) ->
  for_items body d = for_items body' d.
Proof.
  induction d as [|[k v] rest IH]; intros H; simpl; [reflexivity|].
  rewrite (H k v) by now left. rewrite IH; [reflexivity|].
  intros k' v' Hin. apply H. now right.
Qed.

Lemma dict_get_heads k ex :
  dict_get k (map (fun kv => (fst kv, heads (snd kv))) ex)
  = option_map heads (dict_get k ex).
Proof.
  induction ex as [|[k' v'] rest IH]; simpl; [reflexivity|].
  now destruct (String.eqb k k').
Qed.

Lemma truthy_heads v : truthy (heads v) = truthy v.
Proof. destruct v as [| | | | |[|first more]|[|entry entries]]; reflexivity. Qed.

Lemma add_example_heads_bounded n : forall schema example,
  size schema < n ->
  add_example schema (heads example) = add_example schema example.
Proof.
  induction n as [|n IH]; intros schema example Hsize; [lia|].
  destruct schema as [| | | | | |d]; try reflexivity.
  destruct (is_str (dict_get "type" d) "array" && has "items" d) eqn:Harr.
  - destruct example as [| | | | |[|first more]|ex]; try reflexivity.
    + apply andb_true_iff in Harr as [Htype Hhas]. cbn [heads].
      rewrite !add_example_array by assumption.
      erewrite call_at_ext; [reflexivity|].
      intros v Hv. apply IH. pose proof (size_dict_get _ _ _ Hv). lia.
    + cbn [heads add_example]. now rewrite Harr.
  - destruct (is_str (dict_get "type" d) "object" && has "properties" d)
      eqn:Hobj; [|cbn [add_example]; now rewrite Harr, Hobj].
    apply andb_true_iff in Hobj as [Htype Hhas].
    rewrite !add_example_object_any by assumption.
    erewrite call_at_ext; [reflexivity|].
    intros pv Hpv. pose proof (size_dict_get _ _ _ Hpv) as Hpvsize.
    unfold on_properties. destruct pv as [| | | | | |props]; try reflexivity.
    erewrite for_items_ext; [reflexivity|].
    intros key subschema Hin.
    pose proof (size_entry _ _ _ Hin) as Hsub.
    unfold object_body.
    destruct example as [| | | | |[|first more]|ex]; try reflexivity.
    cbn [heads]. unfold property_body. rewrite dict_get_heads.
    destruct (dict_get key ex) as [value|]; [|reflexivity].
    cbn [option_map]. rewrite truthy_heads.
    destruct (truthy value); [|reflexivity].
    destruct value as [| | | | |[|[| | | | |[|y ys]|first] more]|vd];
      try reflexivity.
    + destruct subschema as [| | | | | |sd]; try reflexivity.
      cbn [heads]. erewrite call_at_ext; [reflexivity|].
      intros v Hv.
      apply (IH v (JDict first)). pose proof (size_dict_get _ _ _ Hv). lia.
    + apply (IH subschema (JDict vd)). lia.
Qed.

(** X22.  Of every list in the example, [add_example] looks at the first
    element only: cutting each list down to its first element, at every
    depth, changes neither the schema that is left nor the exception. *)
Theorem add_example_reads_first_elements_only schema example :
  add_example schema (heads example) = add_example schema example.
Proof. apply (add_example_heads_bounded (S (size schema))). lia. Qed.

(** ** The script *)

Section ScriptFacts.

Variable to_schema : json -> json.
Variable json_load : string -> option json.
Variable yaml_dump : json -> string.
Variable json_dump : json -> string.

(** X20.  When both [-o] and [-y] are given, a run that succeeds writes the
    YAML file only: the path given with [-o] is left as it was, and yet it
    is the one the closing message names. *)
Theorem yaml_output_wins args h y j data schema :
  output_yaml args = Some y -> given (Some y) = true ->
  output_json args = Some j -> given (Some j) = true ->
  load_file json_load (input args) h = inr data ->
  gen_schema to_schema data = inr schema ->
  truthy schema = true ->
  exists h',
    main to_schema json_load yaml_dump json_dump args h = (None, h')
    /\ files h' = <[y := yaml_dump schema]> (files h)
    /\ (j <> y -> files h' !! j = files h !! j)
    /\ stdout h'
       = stdout h ++ [("Schema generated and saved to " +:+ j) +:+ Str.nl].
Proof.
  intros Hy Hgy Hj Hgj Hload Hgen Htruthy.
  unfold main. rewrite Hload, Hgen, Hy, Hj.
  unfold or_else. rewrite Hgy, Hgj. cbn [orb].
  unfold json_schema_to_yaml. rewrite Htruthy, Hgy.
  eexists. split; [reflexivity|]. cbn.
  split; [reflexivity|]. split; [|reflexivity].
  intros Hne. now apply lookup_insert_ne.
Qed.


End ScriptFacts.

(** ** Runs on sample data *)

Lemma falsy_values_are_never_examples_witness :
  add_example (JDict SampleData.person_schema) (JDict SampleData.nobody)
  = (JDict SampleData.person_schema, None).
Proof.
  apply (falsy_values_are_never_examples SampleData.person_schema
           SampleData.person_properties SampleData.nobody).
  - reflexivity.
  - reflexivity.
  - intros key subschema [H|[H|[H|[]]]]; injection H as <- <-; reflexivity.
Defined.

Lemma truthy_scalars_become_examples_witness :
  exists props' sd',
    dict_get "properties" SampleData.person_with_examples
    = Some (JDict props')
    /\ dict_get "age" props' = Some (JDict sd')
    /\ dict_get "example" sd' = Some (JInt 36)
    /\ forall k, k <> "example" ->
         dict_get k sd' = dict_get k [("type", JStr "integer")].
Proof.
  apply (truthy_scalars_become_examples SampleData.person_schema
           SampleData.person_properties SampleData.person
           SampleData.person_with_examples "age"
           [("type", JStr "integer")] (JInt 36));
    reflexivity.
Defined.

Lemma list_of_objects_needs_items_witness :
  exists e,
    snd (add_example (JDict SampleData.owner_schema) (JDict SampleData.owner))
    = Some e.
Proof.
  apply (list_of_objects_needs_items SampleData.owner_schema
           SampleData.owner_properties SampleData.owner "pets"
           [("type", JStr "array")] [("kind", JStr "cat")] []).
  - reflexivity.
  - reflexivity.
  - now left.
  - reflexivity.
  - reflexivity.
Defined.

Lemma object_schema_rejects_other_examples_witness :
  add_example (JDict SampleData.person_schema) (JList [JDict SampleData.person])
  = (JDict SampleData.person_schema, Some AttributeError).
Proof.
  apply (object_schema_rejects_other_examples SampleData.person_schema
           "name" (JDict [("type", JStr "string")])
           (tl SampleData.person_properties)
           (JList [JDict SampleData.person])).
  - reflexivity.
  - reflexivity.
  - exact I.
Defined.

Lemma yaml_output_wins_witness :
  exists h',
    main SampleData.to_schema0 SampleData.load0 SampleData.yaml0
      SampleData.json0 SampleData.args_both SampleData.host0
    = (None, h')
    /\ files h' = <["out.yml" := "yaml"]> (files SampleData.host0)
    /\ ("out.json" <> "out.yml" ->
        files h' !! "out.json" = files SampleData.host0 !! "out.json")
    /\ stdout h'
       = stdout SampleData.host0
         ++ [("Schema generated and saved to " +:+ "out.json") +:+ Str.nl].
Proof.
  apply (yaml_output_wins SampleData.to_schema0 SampleData.load0
           SampleData.yaml0 SampleData.json0 SampleData.args_both
           SampleData.host0 "out.yml" "out.json" (JDict SampleData.person)
           (JDict SampleData.person_with_examples)).
  - reflexivity.
  - reflexivity.
  - reflexivity.
  - reflexivity.
  - vm_compute. reflexivity.
  - reflexivity.
  - reflexivity.
Defined.

